(** * PhotoVault: access-control policies and gallery client

    A shallow embedding of

    - [supabase/migrations/20260227045417_...sql]: the two tables, their
      row-level-security policies, the [handle_new_user] trigger and the
      policies on [storage.objects] for the [photos] bucket;
    - the [Gallery] component (the second part of [src/pages/Auth.tsx]):
      [fetchPhotos], [uploadFile] and [deletePhoto].

    SQL expressions are evaluated in three-valued logic ([None] is NULL), a
    policy admits a row when its expression is TRUE, and a table with row
    level security enabled admits a command on a row when one of its policies
    for that command does.  The client is a program over the requests it
    sends to the backend; it is run against an arbitrary backend, or against
    the reference backend built from the migration. *)

From Stdlib Require Import ZArith NArith String Ascii List Lia Permutation.
From Stdlib Require Import Sorting.Sorted.
From stdpp Require Import base decidable option list gmap strings sorting pretty.

Local Open Scope string_scope.

(** ** Text helpers shared by the SQL and the TypeScript side *)

Module Text.

(** [s.split(c)] of JavaScript for a one-character separator; also
    PostgreSQL's [string_to_array] on a non-empty string. *)
Fixpoint split (c : ascii) (s : string) : list string :=
  match s with
  | EmptyString => [EmptyString]
  | String a s' =>
      if Ascii.eqb a c then EmptyString :: split c s'
      else match split c s' with
           | [] => [String a EmptyString]
           | w :: ws => String a w :: ws
           end
  end.

(** [s.startsWith(p)]. *)
Fixpoint startsWith (p s : string) : bool :=
  match p, s with
  | EmptyString, _ => true
  | String a p', String b s' => Ascii.eqb a b && startsWith p' s'
  | String _ _, EmptyString => false
  end.

(** Does the character occur in the string? *)
Fixpoint occurs (c : ascii) (s : string) : bool :=
  match s with
  | EmptyString => false
  | String a s' => Ascii.eqb a c || occurs c s'
  end.

(** The first path segment of an object key. *)
Definition first_segment (s : string) : string :=
  match split "/" s with
  | [] => EmptyString
  | w :: _ => w
  end.

End Text.

(** ** UUIDs and their text form *)

Module Uuid.

(** A uuid is a 128-bit number. *)
Definition uuid := N.

Definition valid (u : uuid) : Prop := (u < 2 ^ 128)%N.

Definition hex_digit (n : N) : ascii :=
  match n with
  | 0%N => "0" | 1%N => "1" | 2%N => "2" | 3%N => "3"
  | 4%N => "4" | 5%N => "5" | 6%N => "6" | 7%N => "7"
  | 8%N => "8" | 9%N => "9" | 10%N => "a" | 11%N => "b"
  | 12%N => "c" | 13%N => "d" | 14%N => "e" | _ => "f"
  end%char.

(** The [k] low hexadecimal digits of [n], most significant first, in
    front of [acc]. *)
Fixpoint hex_digits (k : nat) (n : N) (acc : list ascii) : list ascii :=
  match k with
  | O => acc
  | S k' => hex_digits k' (n / 16)%N (hex_digit (n mod 16)%N :: acc)
  end.

(** The 8-4-4-4-12 grouping of 32 digits. *)
Definition hyphenate (d : list ascii) : list ascii :=
  take 8 d ++ "-"%char :: take 4 (drop 8 d) ++ "-"%char ::
  take 4 (drop 12 d) ++ "-"%char :: take 4 (drop 16 d) ++ "-"%char ::
  drop 20 d.

(** Dropping the four hyphens again. *)
Definition unhyphenate (s : list ascii) : list ascii :=
  take 8 s ++ take 4 (drop 9 s) ++ take 4 (drop 14 s) ++ take 4 (drop 19 s) ++ drop 24 s.

(** [u::text]: the canonical lower-case form that PostgreSQL prints and
    that the client holds in [session.user.id]. *)
Definition to_text (u : uuid) : string :=
  string_of_list_ascii (hyphenate (hex_digits 32 u [])).
Arguments to_text : simpl never.

End Uuid.

Abbreviation uuid := Uuid.uuid.


(** ** SQL values, errors and row-level security *)

Module Sql.

(** A boolean SQL expression evaluates to TRUE, FALSE or NULL. *)
Definition sql_bool := option bool.

(** [x = y]: NULL as soon as one side is NULL. *)
Definition sql_eq {A} `{EqDecision A} (x y : option A) : sql_bool :=
  match x, y with
  | Some a, Some b => Some (bool_decide (a = b))
  | _, _ => None
  end.

(** [p AND q] in three-valued logic. *)
Definition sql_and (p q : sql_bool) : sql_bool :=
  match p, q with
  | Some false, _ | _, Some false => Some false
  | Some true, Some true => Some true
  | _, _ => None
  end.

(** A row passes a policy expression only when it evaluates to TRUE. *)
Definition is_true (p : sql_bool) : bool :=
  match p with
  | Some true => true
  | _ => false
  end.

Inductive command := SELECT | INSERT | UPDATE | DELETE.

#[global] Instance command_eq_dec : EqDecision command.
Proof. solve_decision. Defined.

Inductive error :=
| rls_violation          (* new row violates row-level security policy *)
| unique_violation       (* primary key or UNIQUE constraint *)
| foreign_key_violation
| bucket_not_found
| transport_failure.     (* the request never reached the backend *)

Definition message (e : error) : string :=
  match e with
  | rls_violation => "new row violates row-level security policy"
  | unique_violation => "duplicate key value violates unique constraint"
  | foreign_key_violation => "insert or update violates foreign key constraint"
  | bucket_not_found => "Bucket not found"
  | transport_failure => "Failed to fetch"
  end.

Inductive result (A : Type) :=
| Ok (a : A)
| Err (e : error).
Arguments Ok {A} a.
Arguments Err {A} e.

(** A policy expression reads [auth.uid()] (NULL for a request without a
    user token) and the row. *)
Definition expr (Row : Type) := option uuid → Row → sql_bool.

(** [CREATE POLICY name ON table FOR cmd USING (..) WITH CHECK (..)]. *)
Record policy (Row : Type) := Policy {
  pol_name : string;
  pol_cmd : command;
  pol_using : option (expr Row);
  pol_with_check : option (expr Row)
}.
Arguments Policy {Row} _ _ _ _.
Arguments pol_name {Row} _.
Arguments pol_cmd {Row} _.
Arguments pol_using {Row} _.
Arguments pol_with_check {Row} _.

Section RowLevelSecurity.
Context {Row : Type}.

(** The expression applied to existing rows; an absent USING does not
    restrict. *)
Definition using_expr (p : policy Row) : expr Row :=
  match pol_using p with
  | Some e => e
  | None => λ _ _, Some true
  end.

(** The expression applied to new rows; an absent WITH CHECK falls back on
    USING. *)
Definition check_expr (p : policy Row) : expr Row :=
  match pol_with_check p with
  | Some e => e
  | None => using_expr p
  end.

(** With row level security enabled the permissive policies of a command
    are OR-ed, and with none of them the command is denied on every row. *)
Definition admits_using (pols : list (policy Row)) (cmd : command)
    (caller : option uuid) (r : Row) : bool :=
  existsb (λ p, bool_decide (pol_cmd p = cmd) && is_true (using_expr p caller r)) pols.

Definition admits_check (pols : list (policy Row)) (cmd : command)
    (caller : option uuid) (r : Row) : bool :=
  existsb (λ p, bool_decide (pol_cmd p = cmd) && is_true (check_expr p caller r)) pols.

Definition can_select pols caller r := admits_using pols SELECT caller r.
Definition can_insert pols caller r := admits_check pols INSERT caller r.
Definition can_delete pols caller r := admits_using pols DELETE caller r.
Definition can_update pols caller (old new : Row) :=
  admits_using pols UPDATE caller old && admits_check pols UPDATE caller new.

End RowLevelSecurity.

End Sql.

(** ** The migration: tables *)

(** [auth.users], of which the migration reads [id] and [email]. *)
Module AuthUsers.
Record row := Row { id : uuid; email : option string }.
End AuthUsers.

(** [CREATE TABLE public.profiles]. *)
Module Profiles.
Record row := Row {
  id : uuid;                  (* PRIMARY KEY DEFAULT gen_random_uuid() *)
  user_id : uuid;             (* REFERENCES auth.users(id) NOT NULL UNIQUE *)
  email : option string;      (* TEXT *)
  created_at : Z              (* NOT NULL DEFAULT now() *)
}.
End Profiles.

(** [CREATE TABLE public.photos]. *)
Module Photos.
Record row := Row {
  id : uuid;                  (* PRIMARY KEY DEFAULT gen_random_uuid() *)
  user_id : uuid;             (* REFERENCES auth.users(id) NOT NULL *)
  file_name : string;         (* TEXT NOT NULL *)
  file_path : string;         (* TEXT NOT NULL *)
  file_size : option Z;       (* BIGINT *)
  created_at : Z              (* NOT NULL DEFAULT now() *)
}.
End Photos.

(** The columns of [storage.objects] that the policies read. *)
Module Objects.
Record row := Row { bucket_id : string; name : string }.
End Objects.

(** ** The migration: policies *)

Module Policies.
Import Sql.

(** [auth.uid() = user_id] over a table whose rows carry a [user_id]. *)
Definition uid_is_owner {Row} (user_id : Row → uuid) : expr Row :=
  λ caller r, sql_eq caller (Some (user_id r)).

Definition profiles : list (policy Profiles.row) :=
  [ Policy "Users can view own profile" SELECT
      (Some (uid_is_owner Profiles.user_id)) None;
    Policy "Users can insert own profile" INSERT
      None (Some (uid_is_owner Profiles.user_id));
    Policy "Users can update own profile" UPDATE
      (Some (uid_is_owner Profiles.user_id)) None ].

Definition photos : list (policy Photos.row) :=
  [ Policy "Users can view own photos" SELECT
      (Some (uid_is_owner Photos.user_id)) None;
    Policy "Users can insert own photos" INSERT
      None (Some (uid_is_owner Photos.user_id));
    Policy "Users can delete own photos" DELETE
      (Some (uid_is_owner Photos.user_id)) None ].

(** [string_to_array(name, '/')]: no element for the empty string. *)
Definition string_to_array (s : string) (sep : ascii) : list string :=
  match s with
  | EmptyString => []
  | _ => Text.split sep s
  end.

(** [storage.foldername(name)] of the storage schema: every segment of the
    key but the last one, [_parts[1 : array_length(_parts, 1) - 1]]. *)
Definition foldername (name : string) : list string :=
  let _parts := string_to_array name "/" in
  take (length _parts - 1) _parts.

(** [(arr)[1]]: NULL when the array has no first element. *)
Definition array_first (arr : list string) : option string := head arr.

(** [bucket_id = 'photos' AND auth.uid()::text = (storage.foldername(name))[1]]. *)
Definition own_folder : expr Objects.row :=
  λ caller o,
    sql_and (sql_eq (Some (Objects.bucket_id o)) (Some "photos"))
            (sql_eq (Uuid.to_text <$> caller)
                    (array_first (foldername (Objects.name o)))).

(** [bucket_id = 'photos']. *)
Definition in_photos_bucket : expr Objects.row :=
  λ _ o, sql_eq (Some (Objects.bucket_id o)) (Some "photos").

Definition storage_objects : list (policy Objects.row) :=
  [ Policy "Users can upload own photos" INSERT None (Some own_folder);
    Policy "Users can view own photos" SELECT (Some own_folder) None;
    Policy "Users can delete own photos" DELETE (Some own_folder) None;
    Policy "Public can view photos" SELECT (Some in_photos_bucket) None ].

End Policies.

(** ** The backend: tables, constraints, trigger and the requests it serves *)

(** A browser [File]: the fields the client reads. *)
Module File.
Record t := Make { name : string; type : string; size : Z }.
End File.

Module Backend.
Import Sql.

Record database := Database {
  auth_users : list AuthUsers.row;
  profiles : list Profiles.row;
  photos : list Photos.row;
  bucket_photos : gmap string File.t   (* the objects of bucket 'photos', by key *)
}.

Definition set_auth_users (l : list AuthUsers.row) (db : database) : database :=
  Database l (profiles db) (photos db) (bucket_photos db).
Definition set_profiles (l : list Profiles.row) (db : database) : database :=
  Database (auth_users db) l (photos db) (bucket_photos db).
Definition set_photos (l : list Photos.row) (db : database) : database :=
  Database (auth_users db) (profiles db) l (bucket_photos db).
Definition set_bucket_photos (m : gmap string File.t) (db : database) : database :=
  Database (auth_users db) (profiles db) (photos db) m.

(** The foreign key of [profiles]: every profile refers to a user. *)
Definition profiles_refer_to_users (db : database) : Prop :=
  ∀ p, p ∈ profiles db → Profiles.user_id p ∈ AuthUsers.id <$> auth_users db.

(** *** Statements run by the table owner (no row level security) *)

(** [INSERT INTO public.profiles]: primary key, UNIQUE (user_id) and the
    reference to [auth.users]. *)
Definition insert_into_profiles (r : Profiles.row) (db : database) : result database :=
  if bool_decide (Profiles.id r ∈ Profiles.id <$> profiles db) then Err unique_violation
  else if bool_decide (Profiles.user_id r ∈ Profiles.user_id <$> profiles db) then Err unique_violation
  else if bool_decide (Profiles.user_id r ∈ AuthUsers.id <$> auth_users db)
       then Ok (set_profiles (profiles db ++ [r]) db)
       else Err foreign_key_violation.

(** [INSERT INTO public.photos]: primary key and the reference to
    [auth.users]. *)
Definition insert_into_photos (r : Photos.row) (db : database) : result database :=
  if bool_decide (Photos.id r ∈ Photos.id <$> photos db) then Err unique_violation
  else if bool_decide (Photos.user_id r ∈ AuthUsers.id <$> auth_users db)
       then Ok (set_photos (photos db ++ [r]) db)
       else Err foreign_key_violation.

(** [public.handle_new_user()], SECURITY DEFINER: the insert runs as the
    owner of the function, whatever the policies of [public.profiles] say.
    [gen_random_uuid] and [now] are the values of the column defaults. *)
Definition handle_new_user (NEW : AuthUsers.row) (gen_random_uuid : uuid) (now : Z)
    (db : database) : result database :=
  insert_into_profiles
    (Profiles.Row gen_random_uuid (AuthUsers.id NEW) (AuthUsers.email NEW) now) db.

(** [INSERT INTO auth.users] with the trigger [on_auth_user_created]
    (AFTER INSERT, FOR EACH ROW): an error raised by the trigger aborts the
    statement, and the inserted user row with it. *)
Definition insert_into_auth_users (NEW : AuthUsers.row) (gen_random_uuid : uuid) (now : Z)
    (db : database) : result database :=
  if bool_decide (AuthUsers.id NEW ∈ AuthUsers.id <$> auth_users db) then Err unique_violation
  else handle_new_user NEW gen_random_uuid now
         (set_auth_users (auth_users db ++ [NEW]) db).

(** *** Statements of a caller, under row level security *)

Section Tables.
Context {Row : Type} (pols : list (policy Row)).

(** [SELECT]: the rows the caller may see. *)
Definition rls_select (caller : option uuid) (tbl : list Row) : list Row :=
  List.filter (can_select pols caller) tbl.

(** The rows an [UPDATE .. WHERE] or [DELETE .. WHERE] of the caller reaches:
    they match the condition, the caller may read them, and a policy of the
    command admits them. *)
Definition reached (cmd : command) (caller : option uuid) (cond : Row → bool)
    (r : Row) : bool :=
  cond r && can_select pols caller r && admits_using pols cmd caller r.

(** [DELETE .. WHERE]: unreachable rows stay, without an error. *)
Definition rls_delete (caller : option uuid) (cond : Row → bool)
    (tbl : list Row) : list Row :=
  List.filter (λ r, negb (reached DELETE caller cond r)) tbl.

(** [UPDATE .. SET .. WHERE]: every reached row is replaced; a new row that
    no UPDATE policy admits aborts the statement. *)
Definition rls_update (caller : option uuid) (cond : Row → bool) (upd : Row → Row)
    (tbl : list Row) : result (list Row) :=
  if forallb (λ r, implb (reached UPDATE caller cond r)
                         (admits_check pols UPDATE caller (upd r))) tbl
  then Ok (map (λ r, if reached UPDATE caller cond r then upd r else r) tbl)
  else Err rls_violation.

End Tables.

Definition profiles_constraints (db : database) (tbl : list Profiles.row) : bool :=
  bool_decide (NoDup (Profiles.id <$> tbl))
  && bool_decide (NoDup (Profiles.user_id <$> tbl))
  && forallb (λ r, bool_decide (Profiles.user_id r ∈ AuthUsers.id <$> auth_users db)) tbl.

Definition photos_constraints (db : database) (tbl : list Photos.row) : bool :=
  bool_decide (NoDup (Photos.id <$> tbl))
  && forallb (λ r, bool_decide (Photos.user_id r ∈ AuthUsers.id <$> auth_users db)) tbl.

Definition select_profiles (caller : option uuid) (db : database) : list Profiles.row :=
  rls_select Policies.profiles caller (profiles db).

Definition insert_profile (caller : option uuid) (user_id : uuid) (email : option string)
    (gen_random_uuid : uuid) (now : Z) (db : database) : result database :=
  let r := Profiles.Row gen_random_uuid user_id email now in
  if can_insert Policies.profiles caller r then insert_into_profiles r db
  else Err rls_violation.

Definition update_profiles (caller : option uuid) (cond : Profiles.row → bool)
    (upd : Profiles.row → Profiles.row) (db : database) : result database :=
  match rls_update Policies.profiles caller cond upd (profiles db) with
  | Ok tbl => if profiles_constraints db tbl then Ok (set_profiles tbl db)
              else Err unique_violation
  | Err e => Err e
  end.

Definition delete_profiles (caller : option uuid) (cond : Profiles.row → bool)
    (db : database) : database :=
  set_profiles (rls_delete Policies.profiles caller cond (profiles db)) db.

(** [created_at] descending. *)
Definition newer_first (a b : Photos.row) : Prop :=
  (Photos.created_at b ≤ Photos.created_at a)%Z.

#[global] Instance newer_first_dec a b : Decision (newer_first a b).
Proof. unfold newer_first. apply _. Defined.

(** [SELECT * FROM photos ORDER BY created_at DESC]. *)
Definition select_photos_desc (caller : option uuid) (db : database) : list Photos.row :=
  merge_sort newer_first (rls_select Policies.photos caller (photos db)).

Definition insert_photo (caller : option uuid) (user_id : uuid) (file_name file_path : string)
    (file_size : option Z) (gen_random_uuid : uuid) (now : Z) (db : database)
    : result database :=
  let r := Photos.Row gen_random_uuid user_id file_name file_path file_size now in
  if can_insert Policies.photos caller r then insert_into_photos r db
  else Err rls_violation.

Definition update_photos (caller : option uuid) (cond : Photos.row → bool)
    (upd : Photos.row → Photos.row) (db : database) : result database :=
  match rls_update Policies.photos caller cond upd (photos db) with
  | Ok tbl => if photos_constraints db tbl then Ok (set_photos tbl db)
              else Err unique_violation
  | Err e => Err e
  end.

Definition delete_photos (caller : option uuid) (cond : Photos.row → bool)
    (db : database) : database :=
  set_photos (rls_delete Policies.photos caller cond (photos db)) db.

(** *** The storage API on [storage.objects] *)

(** [storage.from(bucket).upload(path, file)]: an INSERT of the object row. *)
Definition upload (caller : option uuid) (bucket path : string) (f : File.t)
    (db : database) : result database :=
  if bool_decide (bucket = "photos") then
    if can_insert Policies.storage_objects caller (Objects.Row bucket path) then
      match bucket_photos db !! path with
      | Some _ => Err unique_violation
      | None => Ok (set_bucket_photos (<[path := f]> (bucket_photos db)) db)
      end
    else Err rls_violation
  else Err bucket_not_found.

(** Removing one key: nothing happens, and no error is raised, when the
    caller may not read or delete the object. *)
Definition remove_one (caller : option uuid) (bucket path : string)
    (m : gmap string File.t) : gmap string File.t :=
  if bool_decide (bucket = "photos")
     && can_select Policies.storage_objects caller (Objects.Row bucket path)
     && can_delete Policies.storage_objects caller (Objects.Row bucket path)
  then delete path m else m.

(** [storage.from(bucket).remove(paths)]. *)
Definition remove (caller : option uuid) (bucket : string) (paths : list string)
    (db : database) : database :=
  set_bucket_photos (foldr (remove_one caller bucket) (bucket_photos db) paths) db.

(** Reading an object through the API, as the caller. *)
Definition download (caller : option uuid) (bucket path : string) (db : database)
    : option File.t :=
  if can_select Policies.storage_objects caller (Objects.Row bucket path)
  then bucket_photos db !! path else None.

End Backend.

(** ** The gallery client (the [Gallery] component) *)

Module Gallery.

(** The requests the component sends through the SDK. *)
Inductive request :=
| storage_upload (bucket path : string) (file : File.t)
    (* supabase.storage.from(bucket).upload(path, file) *)
| storage_remove (bucket : string) (paths : list string)
    (* supabase.storage.from(bucket).remove(paths) *)
| photos_select_desc
    (* supabase.from("photos").select("*").order("created_at", { ascending: false }) *)
| photos_insert (user_id : uuid) (file_name file_path : string) (file_size : Z)
    (* supabase.from("photos").insert({ user_id, file_name, file_path, file_size }) *)
| photos_delete_eq_id (id : uuid).
    (* supabase.from("photos").delete().eq("id", id) *)

(** Every SDK call resolves to [{ data, error }]. *)
Record response := Response {
  data : option (list Photos.row);
  error : option Sql.error
}.

(** A client program: it returns, or sends a request and continues with the
    response. *)
Inductive client (A : Type) :=
| Ret (a : A)
| Call (r : request) (k : response → client A).
Arguments Ret {A} a.
Arguments Call {A} r k.

Fixpoint bind {A B} (p : client A) (f : A → client B) : client B :=
  match p with
  | Ret a => f a
  | Call r k => Call r (λ x, bind (k x) f)
  end.

Inductive toast :=
| toast_error (msg : string)
| toast_success (msg : string).

(** The state of the component, and the notifications it has shown. *)
Record state := State {
  photos : list Photos.row;
  uploading : bool;
  userId : option uuid;
  toasts : list toast
}.

Definition setPhotos (f : list Photos.row → list Photos.row) (st : state) : state :=
  State (f (photos st)) (uploading st) (userId st) (toasts st).
Definition setUploading (b : bool) (st : state) : state :=
  State (photos st) b (userId st) (toasts st).
Definition show (t : toast) (st : state) : state :=
  State (photos st) (uploading st) (userId st) (toasts st ++ [t]).

(** [fetchPhotos]. *)
Definition fetchPhotos (st : state) : client state :=
  match userId st with
  | None => Ret st
  | Some _ =>
      Call photos_select_desc (λ r,
        match error r with
        | Some _ => Ret (show (toast_error "Erro ao carregar fotos") st)
        | None => Ret (setPhotos (λ _, default [] (data r)) st)
        end)
  end.

(** [`${x}`] of a possibly undefined string. *)
Definition interpolate (x : option string) : string := default "undefined" x.

(** [file.name.split(".").pop()]. *)
Definition fileExt (file : File.t) : option string :=
  last (Text.split "." (File.name file)).

(** [`${Date.now()}.${fileExt}`]. *)
Definition fileName (now : Z) (file : File.t) : string :=
  pretty now +:+ "." +:+ interpolate (fileExt file).

(** [`${userId}/${fileName}`]. *)
Definition filePath (userId : uuid) (now : Z) (file : File.t) : string :=
  Uuid.to_text userId +:+ "/" +:+ fileName now file.

(** [uploadFile]; [now] is what [Date.now()] returns. *)
Definition uploadFile (now : Z) (file : File.t) (st : state) : client state :=
  match userId st with
  | None => Ret st
  | Some uid =>
      if negb (Text.startsWith "image/" (File.type file)) then
        Ret (show (toast_error "Apenas imagens são permitidas") st)
      else if (10 * 1024 * 1024 <? File.size file)%Z then
        Ret (show (toast_error "Arquivo muito grande (máx 10MB)") st)
      else
        let st := setUploading true st in
        let path := filePath uid now file in
        Call (storage_upload "photos" path file) (λ r,
          match error r with
          | Some uploadError =>
              Ret (setUploading false (show (toast_error (Sql.message uploadError)) st))
          | None =>
              Call (photos_insert uid (File.name file) path (File.size file)) (λ r,
                match error r with
                | Some dbError =>
                    Ret (setUploading false (show (toast_error (Sql.message dbError)) st))
                | None =>
                    bind (fetchPhotos (show (toast_success "Foto enviada com sucesso!") st))
                         (λ st, Ret (setUploading false st))
                end)
          end)
  end.

(** [deletePhoto]. *)
Definition deletePhoto (photo : Photos.row) (st : state) : client state :=
  Call (storage_remove "photos" [Photos.file_path photo]) (λ r,
    match error r with
    | Some storageError => Ret (show (toast_error (Sql.message storageError)) st)
    | None =>
        Call (photos_delete_eq_id (Photos.id photo)) (λ r,
          match error r with
          | Some dbError => Ret (show (toast_error (Sql.message dbError)) st)
          | None =>
              Ret (setPhotos
                     (List.filter (λ p, negb (bool_decide (Photos.id p = Photos.id photo))))
                     (show (toast_success "Foto excluída") st))
          end)
    end).

(** *** Running a client program *)

(** Against any backend [serve] over any state: the result, the final
    backend state and the requests in the order they were sent. *)
Fixpoint run {A W} (serve : request → W → response * W) (p : client A) (w : W)
    : A * W * list request :=
  match p with
  | Ret a => (a, w, [])
  | Call r k =>
      let '(x, w1) := serve r w in
      let '(a, w2, sent) := run serve (k x) w1 in
      (a, w2, r :: sent)
  end.

(** The reference backend: the database of the migration, the user of the
    session token, the column defaults, and which of the coming requests are
    lost in transit. *)
Record world := World {
  db : Backend.database;
  session : option uuid;
  next_uuid : uuid;
  clock : Z;
  faults : list bool
}.

Definition ok : response := Response None None.
Definition failed (e : Sql.error) : response := Response None (Some e).

Definition answer (w : world) (r : Sql.result Backend.database) : response * world :=
  match r with
  | Sql.Ok db' =>
      (ok, World db' (session w) (next_uuid w + 1)%N (clock w + 1)%Z (faults w))
  | Sql.Err e => (failed e, w)
  end.

(** What the backend does with a request that reached it. *)
Definition perform (r : request) (w : world) : response * world :=
  match r with
  | storage_upload bucket path file =>
      answer w (Backend.upload (session w) bucket path file (db w))
  | storage_remove bucket paths =>
      answer w (Sql.Ok (Backend.remove (session w) bucket paths (db w)))
  | photos_select_desc =>
      (Response (Some (Backend.select_photos_desc (session w) (db w))) None, w)
  | photos_insert user_id file_name file_path file_size =>
      answer w (Backend.insert_photo (session w) user_id file_name file_path
                  (Some file_size) (next_uuid w) (clock w) (db w))
  | photos_delete_eq_id id =>
      answer w (Sql.Ok (Backend.delete_photos (session w)
                          (λ p, bool_decide (Photos.id p = id)) (db w)))
  end.

Definition serve (r : request) (w : world) : response * world :=
  match faults w with
  | true :: rest =>
      (failed Sql.transport_failure,
       World (db w) (session w) (next_uuid w) (clock w) rest)
  | false :: rest =>
      perform r (World (db w) (session w) (next_uuid w) (clock w) rest)
  | [] => perform r w
  end.

(** The extension as the specification words it, the "original extension"
    of the file: what follows the last dot of the name, and none for a name
    without a dot.  It is compared with [fileExt] below. *)
Fixpoint originalExtension (name : string) : option string :=
  match name with
  | EmptyString => None
  | String a rest =>
      match originalExtension rest with
      | Some ext => Some ext
      | None => if Ascii.eqb a "." then Some rest else None
      end
  end.

End Gallery.

(** ** Sample data *)

Module Sample.

Definition alice : uuid := 0x8d3f1c2a5b6e4f708192a3b4c5d6e7f8%N.
Definition bob : uuid := 0x0a1b2c3d4e5f46718293a4b5c6d7e8f9%N.

Definition alice_path : string := "8d3f1c2a-5b6e-4f70-8192-a3b4c5d6e7f8/1700000000000.png".
Definition bob_path : string := "0a1b2c3d-4e5f-4671-8293-a4b5c6d7e8f9/1700000050000.jpg".

Definition png : File.t := File.Make "beach.png" "image/png" (5 * 1024 * 1024).
Definition jpg : File.t := File.Make "hills.jpg" "image/jpeg" 204800.

Definition alice_profile : Profiles.row :=
  Profiles.Row 0x100%N alice (Some "alice@example.org") 1690000000.
Definition bob_profile : Profiles.row :=
  Profiles.Row 0x101%N bob (Some "bob@example.org") 1690000100.

Definition alice_photo : Photos.row :=
  Photos.Row 0x200%N alice "beach.png" alice_path (Some (5 * 1024 * 1024)%Z) 1700000000.
Definition bob_photo : Photos.row :=
  Photos.Row 0x201%N bob "hills.jpg" bob_path (Some 204800%Z) 1700000050.
Definition alice_photo2 : Photos.row :=
  Photos.Row 0x202%N alice "dunes.png"
    "8d3f1c2a-5b6e-4f70-8192-a3b4c5d6e7f8/1700000090000.png" (Some 1024%Z) 1700000090.

Definition db0 : Backend.database :=
  Backend.Database
    [AuthUsers.Row alice (Some "alice@example.org"); AuthUsers.Row bob (Some "bob@example.org")]
    [alice_profile; bob_profile]
    [alice_photo; bob_photo; alice_photo2]
    (<[alice_path := png]> (<[bob_path := jpg]> ∅)).

Definition st0 : Gallery.state :=
  Gallery.State [alice_photo2; alice_photo] false (Some alice) [].

(** Alice's session against [db0], with the given transport faults. *)
Definition world0 (faults : list bool) : Gallery.world :=
  Gallery.World db0 (Some alice) 0x300%N 1700000100 faults.

(** A file whose name has no dot. *)
Definition scan : File.t := File.Make "scan" "image/png" 2048.

End Sample.

(** ** The constraints of the schema, and deleting a user *)

Module Schema.
Import Backend.

(** The declared constraints: the primary keys, UNIQUE (user_id) on
    profiles, and the references from both tables to [auth.users]. *)
Definition consistent (db : database) : Prop :=
  NoDup (AuthUsers.id <$> auth_users db) ∧
  NoDup (Profiles.id <$> profiles db) ∧
  NoDup (Profiles.user_id <$> profiles db) ∧
  (∀ p, p ∈ profiles db → Profiles.user_id p ∈ AuthUsers.id <$> auth_users db) ∧
  NoDup (Photos.id <$> photos db) ∧
  (∀ p, p ∈ photos db → Photos.user_id p ∈ AuthUsers.id <$> auth_users db).

(** The users with a profile are the users, each once. *)
Definition one_profile_per_user (db : database) : Prop :=
  Profiles.user_id <$> profiles db ≡ₚ AuthUsers.id <$> auth_users db.

(** [DELETE FROM auth.users WHERE id = u]: both tables reference the user
    with ON DELETE CASCADE, so the user's profile and photo rows go with it.
    The migration declares nothing of the kind for the stored objects. *)
Definition delete_from_auth_users (u : uuid) (db : database) : database :=
  Database
    (List.filter (λ r, negb (bool_decide (AuthUsers.id r = u))) (auth_users db))
    (List.filter (λ p, negb (bool_decide (Profiles.user_id p = u))) (profiles db))
    (List.filter (λ p, negb (bool_decide (Photos.user_id p = u))) (photos db))
    (bucket_photos db).

(** The photo rows of the users other than [u]. *)
Definition photos_of_others (u : uuid) (db : database) : list Photos.row :=
  List.filter (λ p, negb (bool_decide (Photos.user_id p = u))) (photos db).

(** What user [u] has no hand in: the users, the profiles, the photo rows
    of the others and the objects outside [u]'s folder are in [db'] what
    they are in [db]. *)
Definition same_outside (u : uuid) (db db' : database) : Prop :=
  auth_users db' = auth_users db ∧
  profiles db' = profiles db ∧
  photos_of_others u db' = photos_of_others u db ∧
  ∀ key, Text.first_segment key ≠ Uuid.to_text u →
         bucket_photos db' !! key = bucket_photos db !! key.

End Schema.

(** ** The sign-in page ([Auth.tsx]) and the session of the gallery *)

(** The calls to [supabase.auth]. *)
Module AuthApi.

Inductive request :=
| signInWithPassword (email password : string)
| signUp (email password emailRedirectTo : string)
| getSession
| signOut.

(** What the components read of an answer: the user of the session, and
    the message of the error. *)
Record response := Response {
  session_user : option uuid;
  error : option string
}.

Inductive call (A : Type) :=
| Ret (a : A)
| Call (r : request) (k : response → call A).
Arguments Ret {A} a.
Arguments Call {A} r k.

Fixpoint run {A W} (serve : request → W → response * W) (p : call A) (w : W)
    : A * W * list request :=
  match p with
  | Ret a => (a, w, [])
  | Call r k =>
      let '(x, w1) := serve r w in
      let '(a, w2, sent) := run serve (k x) w1 in
      (a, w2, r :: sent)
  end.

End AuthApi.

Module AuthPage.
Import AuthApi.

(** The state of the [Auth] component, the notifications it has shown and
    the routes it has navigated to. *)
Record state := State {
  isLogin : bool;
  email : string;
  password : string;
  loading : bool;
  toasts : list Gallery.toast;
  navigated : list string
}.

Definition setLoading (b : bool) (st : state) : state :=
  State (isLogin st) (email st) (password st) b (toasts st) (navigated st).
Definition show (t : Gallery.toast) (st : state) : state :=
  State (isLogin st) (email st) (password st) (loading st) (toasts st ++ [t])
        (navigated st).
Definition navigate (route : string) (st : state) : state :=
  State (isLogin st) (email st) (password st) (loading st) (toasts st)
        (navigated st ++ [route]).

(** [handleSubmit]; [origin] is [window.location.origin]. *)
Definition handleSubmit (origin : string) (st : state) : call state :=
  let st := setLoading true st in
  if isLogin st then
    Call (signInWithPassword (email st) (password st)) (λ r,
      match error r with
      | Some msg => Ret (setLoading false (show (Gallery.toast_error msg) st))
      | None =>
          Ret (setLoading false
                 (navigate "/gallery"
                    (show (Gallery.toast_success "Login realizado com sucesso!") st)))
      end)
  else
    Call (signUp (email st) (password st) origin) (λ r,
      match error r with
      | Some msg => Ret (setLoading false (show (Gallery.toast_error msg) st))
      | None =>
          Ret (setLoading false
                 (show (Gallery.toast_success
                          "Cadastro realizado! Verifique seu email para confirmar.") st))
      end).

End AuthPage.

Module GalleryPage.
Import AuthApi.

(** The gallery component with the routes it has navigated to. *)
Record page := Page {
  gallery : Gallery.state;
  navigated : list string
}.

Definition setUserId (u : uuid) (pg : page) : page :=
  Page (Gallery.State (Gallery.photos (gallery pg)) (Gallery.uploading (gallery pg))
          (Some u) (Gallery.toasts (gallery pg)))
       (navigated pg).
Definition navigate (route : string) (pg : page) : page :=
  Page (gallery pg) (navigated pg ++ [route]).

(** The component as it mounts: [useState] initial values. *)
Definition mounted : page := Page (Gallery.State [] false None []) [].

(** [checkAuth] of the first effect. *)
Definition checkAuth (pg : page) : call page :=
  Call getSession (λ r,
    match session_user r with
    | None => Ret (navigate "/auth" pg)
    | Some uid => Ret (setUserId uid pg)
    end).

(** The callback given to [onAuthStateChange]. *)
Definition onAuthStateChange (session : option uuid) (pg : page) : page :=
  match session with
  | None => navigate "/auth" pg
  | Some uid => setUserId uid pg
  end.

(** [handleLogout]. *)
Definition handleLogout (pg : page) : call page :=
  Call signOut (λ _, Ret (navigate "/auth" pg)).

End GalleryPage.

(** Settles which of the listed policies are for the command at hand. *)
Ltac by_command :=
  cbn; repeat (case_bool_decide; try discriminate); cbn; try congruence; try done.

(** * Properties *)

(** ** What the table policies decide *)

Section PolicyFacts.
Import Sql Policies.

Lemma uid_is_owner_spec {Row} (f : Row → uuid) (caller : option uuid) (r : Row) :
  is_true (uid_is_owner f caller r) = bool_decide (caller = Some (f r)).
Proof.
  unfold uid_is_owner, sql_eq.
  destruct caller as [u|]; simpl; repeat case_bool_decide; congruence.
Qed.

Lemma profiles_can_select caller r :
  can_select profiles caller r = bool_decide (caller = Some (Profiles.user_id r)).
Proof.
  unfold can_select, admits_using, profiles; cbn.
  rewrite !(uid_is_owner_spec Profiles.user_id). by_command.
Qed.

Lemma profiles_can_insert caller r :
  can_insert profiles caller r = bool_decide (caller = Some (Profiles.user_id r)).
Proof.
  unfold can_insert, admits_check, profiles; cbn.
  rewrite !(uid_is_owner_spec Profiles.user_id). by_command.
Qed.

Lemma profiles_admits_update caller r :
  admits_using profiles UPDATE caller r = bool_decide (caller = Some (Profiles.user_id r)).
Proof.
  unfold admits_using, profiles; cbn.
  rewrite !(uid_is_owner_spec Profiles.user_id). by_command.
Qed.

Lemma profiles_can_delete caller r : can_delete profiles caller r = false.
Proof. unfold can_delete, admits_using, profiles. by_command. Qed.

Lemma photos_can_select caller r :
  can_select photos caller r = bool_decide (caller = Some (Photos.user_id r)).
Proof.
  unfold can_select, admits_using, photos; cbn.
  rewrite !(uid_is_owner_spec Photos.user_id). by_command.
Qed.

Lemma photos_can_insert caller r :
  can_insert photos caller r = bool_decide (caller = Some (Photos.user_id r)).
Proof.
  unfold can_insert, admits_check, photos; cbn.
  rewrite !(uid_is_owner_spec Photos.user_id). by_command.
Qed.

Lemma photos_can_delete caller r :
  can_delete photos caller r = bool_decide (caller = Some (Photos.user_id r)).
Proof.
  unfold can_delete, admits_using, photos; cbn.
  rewrite !(uid_is_owner_spec Photos.user_id). by_command.
Qed.

Lemma photos_admits_update caller r : admits_using photos UPDATE caller r = false.
Proof. unfold admits_using, photos. by_command. Qed.

Lemma storage_admits_update caller o :
  admits_using storage_objects UPDATE caller o = false.
Proof. unfold admits_using, storage_objects. by_command. Qed.

End PolicyFacts.

(** ** Rows a statement cannot reach *)

Section TableFacts.
Import Sql Backend.
Context {Row : Type} (pols : list (policy Row)).

Lemma rls_select_elem caller (tbl : list Row) r :
  r ∈ rls_select pols caller tbl ↔ r ∈ tbl ∧ can_select pols caller r = true.
Proof. unfold rls_select. by rewrite !list_elem_of_In, filter_In. Qed.

Lemma rls_delete_keeps caller cond (tbl : list Row) r :
  r ∈ tbl → reached pols DELETE caller cond r = false →
  r ∈ rls_delete pols caller cond tbl.
Proof.
  intros Hin Hr. unfold rls_delete. rewrite list_elem_of_In, filter_In.
  split; [by apply list_elem_of_In | by rewrite Hr].
Qed.

Lemma rls_update_keeps caller cond upd (tbl tbl' : list Row) r :
  r ∈ tbl → reached pols UPDATE caller cond r = false →
  rls_update pols caller cond upd tbl = Ok tbl' → r ∈ tbl'.
Proof.
  intros Hin Hr. unfold rls_update. case (forallb _ _); [|done].
  intros [= <-]. apply list_elem_of_In, in_map_iff. exists r.
  rewrite Hr. split; [done | by apply list_elem_of_In].
Qed.

Lemma rls_update_unreached caller cond upd (tbl : list Row) :
  (∀ r, admits_using pols UPDATE caller r = false) →
  rls_update pols caller cond upd tbl = Ok tbl.
Proof.
  intros Hno. unfold rls_update.
  assert (Hr : ∀ r, reached pols UPDATE caller cond r = false).
  { intros r. unfold reached. rewrite Hno. by rewrite andb_false_r. }
  rewrite (proj2 (forallb_forall _ _)); [| intros r _; by rewrite Hr].
  f_equal. induction tbl as [|x tbl IH]; [done|]. cbn. by rewrite Hr, IH.
Qed.

End TableFacts.

(** ** Isolation between users on the two tables *)

Section Isolation.
Import Sql Policies Backend.

Lemma profiles_policy_requires_owner p caller r :
  p ∈ Policies.profiles → is_true (check_expr p caller r) = true →
  caller = Some (Profiles.user_id r).
Proof.
  unfold Policies.profiles. rewrite !elem_of_cons, elem_of_nil.
  intros [->|[->|[->|[]]]]; unfold check_expr, using_expr; cbn;
    rewrite (uid_is_owner_spec Profiles.user_id); apply bool_decide_eq_true_1.
Qed.

Lemma photos_policy_requires_owner p caller r :
  p ∈ Policies.photos → is_true (check_expr p caller r) = true →
  caller = Some (Photos.user_id r).
Proof.
  unfold Policies.photos. rewrite !elem_of_cons, elem_of_nil.
  intros [->|[->|[->|[]]]]; unfold check_expr, using_expr; cbn;
    rewrite (uid_is_owner_spec Photos.user_id); apply bool_decide_eq_true_1.
Qed.

Lemma not_owner (U1 U2 : uuid) : U1 ≠ U2 → bool_decide (Some U1 = Some U2) = false.
Proof. intros Hne. apply bool_decide_eq_false_2. congruence. Qed.

(** C1.  A user U1 is denied every read, update and delete of a profile row
    owned by another user U2, and every read, insert-as and delete of a photo
    row owned by U2: each policy of the two tables requires [auth.uid()] to
    be the row's [user_id], so U1's SELECT does not return the row, its
    UPDATE and DELETE leave the row in place, and its INSERT of a row with
    U2's [user_id] is refused.  The statements are those of the data layer,
    not of the client. *)
Theorem cross_user_rows_denied (U1 U2 : uuid) (db : database) :
  U1 ≠ U2 →
  (∀ p caller r, p ∈ Policies.profiles → is_true (check_expr p caller r) = true →
     caller = Some (Profiles.user_id r)) ∧
  (∀ p caller r, p ∈ Policies.photos → is_true (check_expr p caller r) = true →
     caller = Some (Photos.user_id r)) ∧
  (∀ r : Profiles.row, Profiles.user_id r = U2 →
     can_select Policies.profiles (Some U1) r = false ∧
     (∀ new, can_update Policies.profiles (Some U1) r new = false) ∧
     can_delete Policies.profiles (Some U1) r = false ∧
     (r ∈ Backend.profiles db →
        (r ∉ select_profiles (Some U1) db) ∧
        (∀ cond upd db', update_profiles (Some U1) cond upd db = Ok db' →
           r ∈ Backend.profiles db') ∧
        (∀ cond, r ∈ Backend.profiles (delete_profiles (Some U1) cond db)))) ∧
  (∀ r : Photos.row, Photos.user_id r = U2 →
     can_select Policies.photos (Some U1) r = false ∧
     can_insert Policies.photos (Some U1) r = false ∧
     can_delete Policies.photos (Some U1) r = false ∧
     (∀ file_name file_path file_size id now,
        insert_photo (Some U1) U2 file_name file_path file_size id now db
        = Err rls_violation) ∧
     (r ∈ Backend.photos db →
        (r ∉ select_photos_desc (Some U1) db) ∧
        (∀ cond, r ∈ Backend.photos (delete_photos (Some U1) cond db)))).
Proof.
  intros Hne. split; [|split; [|split]].
  - intros p caller r. apply profiles_policy_requires_owner.
  - intros p caller r. apply photos_policy_requires_owner.
  - intros r <-.
    assert (Hsel : can_select Policies.profiles (Some U1) r = false)
      by (rewrite profiles_can_select; by apply not_owner).
    assert (Hupd : admits_using Policies.profiles UPDATE (Some U1) r = false)
      by (rewrite profiles_admits_update; by apply not_owner).
    split; [done|]. split.
    { intros new. unfold can_update. by rewrite Hupd. }
    split; [apply profiles_can_delete|].
    intros Hin. split; [|split].
    + unfold select_profiles. rewrite rls_select_elem. rewrite Hsel. intros [_ ?]; done.
    + intros cond upd db'. unfold update_profiles.
      destruct (rls_update _ _ _ _ _) as [tbl|e] eqn:Hu; [|done].
      case (profiles_constraints db tbl); [|done]. intros [= <-]. cbn.
      eapply rls_update_keeps; [exact Hin| |exact Hu].
      unfold reached. by rewrite Hsel, andb_false_r.
    + intros cond. cbn. apply rls_delete_keeps; [done|].
      unfold reached. by rewrite Hsel, andb_false_r.
  - intros r <-.
    assert (Hsel : can_select Policies.photos (Some U1) r = false)
      by (rewrite photos_can_select; by apply not_owner).
    split; [done|].
    split; [rewrite photos_can_insert; by apply not_owner|].
    split; [rewrite photos_can_delete; by apply not_owner|].
    split.
    { intros fn fp fs id now. unfold insert_photo.
      rewrite photos_can_insert. cbn. by rewrite not_owner. }
    intros Hin. split.
    + unfold select_photos_desc. rewrite merge_sort_Permutation, rls_select_elem.
      rewrite Hsel. intros [_ ?]; done.
    + intros cond. cbn. apply rls_delete_keeps; [done|].
      unfold reached. by rewrite Hsel, andb_false_r.
Qed.

Lemma cross_user_rows_denied_witness :
  (Sample.bob_profile ∉ select_profiles (Some Sample.alice) Sample.db0) ∧
  Sample.bob_photo ∈
    Backend.photos (delete_photos (Some Sample.alice) (λ _, true) Sample.db0).
Proof.
  assert (Hne : Sample.alice ≠ Sample.bob) by (vm_compute; discriminate).
  destruct (cross_user_rows_denied Sample.alice Sample.bob Sample.db0 Hne)
    as (_ & _ & Hprofiles & Hphotos).
  split.
  - apply (Hprofiles Sample.bob_profile eq_refl).
    cbn. rewrite !elem_of_cons. auto.
  - apply (Hphotos Sample.bob_photo eq_refl).
    cbn. rewrite !elem_of_cons. auto.
Defined.

End Isolation.

(** ** The text form of a uuid *)

Section UuidText.
Import Uuid.

Lemma hex_digit_table :
  forallb (λ a, forallb (λ b, implb (Ascii.eqb (hex_digit a) (hex_digit b)) (a =? b)%N)
                        (N.of_nat <$> seq 0 16))
          (N.of_nat <$> seq 0 16) = true.
Proof. vm_compute. reflexivity. Qed.

Lemma below_16 (a : N) : (a < 16)%N → In a (N.of_nat <$> seq 0 16).
Proof.
  intros Ha. apply in_map_iff. exists (N.to_nat a).
  split; [apply N2Nat.id | apply in_seq; lia].
Qed.

Lemma hex_digit_inj (a b : N) :
  (a < 16)%N → (b < 16)%N → hex_digit a = hex_digit b → a = b.
Proof.
  intros Ha Hb Hab. pose proof hex_digit_table as T.
  rewrite forallb_forall in T. specialize (T a (below_16 a Ha)).
  rewrite forallb_forall in T. specialize (T b (below_16 b Hb)).
  rewrite Hab, Ascii.eqb_refl in T. by apply N.eqb_eq.
Qed.

Lemma hex_digits_length k : ∀ n acc, length (hex_digits k n acc) = k + length acc.
Proof.
  induction k as [|k IH]; intros n acc; cbn [hex_digits]; [done|].
  rewrite IH. cbn. lia.
Qed.

Lemma hex_digits_inj k : ∀ n m acc acc',
  (n < 16 ^ N.of_nat k)%N → (m < 16 ^ N.of_nat k)%N → length acc = length acc' →
  hex_digits k n acc = hex_digits k m acc' → n = m ∧ acc = acc'.
Proof.
  induction k as [|k IH]; intros n m acc acc' Hn Hm Hlen Heq.
  - cbn in *. split; [lia | done].
  - cbn [hex_digits] in Heq.
    rewrite Nat2N.inj_succ, N.pow_succ_r' in Hn, Hm.
    apply IH in Heq as [Hdiv Hcons].
    + injection Hcons as Hd Hacc. split; [|done].
      apply hex_digit_inj in Hd; try (apply N.mod_lt; lia).
      rewrite (N.div_mod n 16), (N.div_mod m 16) by lia. by rewrite Hdiv, Hd.
    + apply N.Div0.div_lt_upper_bound. lia.
    + apply N.Div0.div_lt_upper_bound. lia.
    + cbn. by rewrite Hlen.
Qed.

Lemma unhyphenate_hyphenate (d : list ascii) :
  length d = 32 → unhyphenate (hyphenate d) = d.
Proof.
  intros H. do 32 (destruct d as [|? d]; [discriminate H|]).
  destruct d; [reflexivity | discriminate H].
Qed.

Lemma to_text_inj (u v : uuid) : valid u → valid v → to_text u = to_text v → u = v.
Proof.
  unfold valid, to_text. intros Hu Hv Heq.
  apply (f_equal list_ascii_of_string) in Heq.
  rewrite !list_ascii_of_string_of_list_ascii in Heq.
  apply (f_equal unhyphenate) in Heq.
  rewrite !unhyphenate_hyphenate in Heq by (by rewrite hex_digits_length).
  by destruct (hex_digits_inj 32 u v [] [] Hu Hv eq_refl Heq).
Qed.

Lemma hex_digit_not_slash (n : N) : hex_digit n ≠ "/"%char.
Proof. unfold hex_digit. repeat case_match; discriminate. Qed.

Lemma hex_digits_no_slash k : ∀ n acc,
  Forall (λ c, c ≠ "/"%char) acc → Forall (λ c, c ≠ "/"%char) (hex_digits k n acc).
Proof.
  induction k as [|k IH]; intros n acc Hacc; cbn [hex_digits]; [done|].
  apply IH. constructor; [apply hex_digit_not_slash | done].
Qed.

Lemma hyphenate_no_slash (d : list ascii) :
  Forall (λ c, c ≠ "/"%char) d → Forall (λ c, c ≠ "/"%char) (hyphenate d).
Proof.
  intros Hd. unfold hyphenate.
  repeat first
    [ apply Forall_app; split
    | apply Forall_cons; split; [discriminate|]
    | apply Forall_take
    | apply Forall_drop ]; done.
Qed.

Lemma to_text_no_slash (u : uuid) :
  Forall (λ c, c ≠ "/"%char) (list_ascii_of_string (to_text u)).
Proof.
  unfold to_text. rewrite list_ascii_of_string_of_list_ascii.
  apply hyphenate_no_slash, hex_digits_no_slash. constructor.
Qed.

End UuidText.

(** ** Object keys and their folders *)

Section ObjectKeys.
Import Sql Policies.

Lemma split_not_nil c s : Text.split c s ≠ [].
Proof.
  destruct s as [|a s]; cbn [Text.split]; [done|].
  destruct (Ascii.eqb a c); [done|]. by destruct (Text.split c s).
Qed.

Lemma occurs_false c s :
  Forall (λ a, a ≠ c) (list_ascii_of_string s) → Text.occurs c s = false.
Proof.
  induction s as [|a s IH]; cbn [Text.occurs list_ascii_of_string]; [done|].
  intros H. apply Forall_cons in H as [Ha Hs].
  rewrite (IH Hs), orb_false_r. by apply Ascii.eqb_neq.
Qed.

Lemma append_nil (t : string) : EmptyString +:+ t = t.
Proof. reflexivity. Qed.

Lemma append_cons a (s t : string) : String a s +:+ t = String a (s +:+ t).
Proof. reflexivity. Qed.

Lemma split_prefix c s rest :
  Text.occurs c s = false →
  Text.split c (s +:+ String c rest) = s :: Text.split c rest.
Proof.
  induction s as [|a s IH];
    rewrite ?append_nil, ?append_cons; cbn [Text.split Text.occurs].
  - intros _. by rewrite Ascii.eqb_refl.
  - intros H. apply orb_false_elim in H as [Ha Hs].
    by rewrite Ha, (IH Hs).
Qed.

Lemma foldername_first (name s : string) :
  array_first (foldername name) = Some s → Text.first_segment name = s.
Proof.
  unfold array_first, foldername, string_to_array, Text.first_segment.
  destruct name as [|a name]; [done|].
  destruct (Text.split "/" (String a name)) as [|w [|w' ws]]; cbn; [done..|].
  congruence.
Qed.

Lemma own_folder_first (u : uuid) (rest : string) :
  array_first (foldername (Uuid.to_text u +:+ String "/" rest)) = Some (Uuid.to_text u).
Proof.
  unfold array_first, foldername, string_to_array.
  pose proof (split_prefix "/" (Uuid.to_text u) rest
                (occurs_false _ _ (to_text_no_slash u))) as Hs.
  destruct (Uuid.to_text u +:+ String "/" rest) as [|a s] eqn:E.
  { by destruct (Uuid.to_text u). }
  rewrite Hs. pose proof (split_not_nil "/" rest).
  destruct (Text.split "/" rest) as [|w ws]; [done|]. reflexivity.
Qed.

Lemma own_folder_spec (caller : option uuid) (name : string) :
  is_true (own_folder caller (Objects.Row "photos" name)) = true ↔
  ∃ u, caller = Some u ∧ array_first (foldername name) = Some (Uuid.to_text u).
Proof.
  unfold own_folder, sql_and, sql_eq; cbn.
  destruct caller as [u|]; cbn;
    destruct (array_first (foldername name)) as [s|]; cbn;
    repeat case_bool_decide; cbn; split; try done;
    try (intros (u' & [= <-] & [= ->]); done);
    try (intros (u' & ? & ?); done).
  intros _. exists u. by subst.
Qed.

Lemma storage_can_insert caller name :
  can_insert storage_objects caller (Objects.Row "photos" name)
  = is_true (own_folder caller (Objects.Row "photos" name)).
Proof.
  unfold can_insert, admits_check, storage_objects. cbn.
  unfold check_expr; cbn. by_command; by destruct (is_true _).
Qed.

Lemma storage_can_delete caller name :
  can_delete storage_objects caller (Objects.Row "photos" name)
  = is_true (own_folder caller (Objects.Row "photos" name)).
Proof.
  unfold can_delete, admits_using, storage_objects. cbn.
  unfold using_expr; cbn. by_command; by destruct (is_true _).
Qed.

Lemma storage_can_select caller name :
  can_select storage_objects caller (Objects.Row "photos" name) = true.
Proof.
  unfold can_select, admits_using, storage_objects. cbn.
  unfold using_expr; cbn. by_command. apply orb_true_r.
Qed.

End ObjectKeys.

(** ** The photos bucket *)

Section Bucket.
Import Sql Backend.

Lemma foreign_folder (U1 U2 : uuid) (name : string) :
  Uuid.valid U1 → Uuid.valid U2 → U1 ≠ U2 →
  Text.first_segment name = Uuid.to_text U2 →
  is_true (Policies.own_folder (Some U1) (Objects.Row "photos" name)) = false.
Proof.
  intros V1 V2 Hne Hseg. apply not_true_is_false. intros Hok.
  apply own_folder_spec in Hok as (u & [= <-] & Hfirst).
  apply foldername_first in Hfirst. rewrite Hseg in Hfirst.
  apply Hne. symmetry. by apply to_text_inj.
Qed.

(** C2.  A user U1 is denied the upload and the removal of an object of
    the photos bucket whose key starts with the segment of another user U2:
    the INSERT and DELETE policies admit a key only when the text of the
    caller's identity is the first segment of the key.  Every requester, with
    or without a user, may read every object of the bucket. *)
Theorem bucket_write_own_folder_read_public (U1 U2 : uuid) (name : string) :
  Uuid.valid U1 → Uuid.valid U2 → U1 ≠ U2 →
  Text.first_segment name = Uuid.to_text U2 →
  (∀ caller key,
     can_insert Policies.storage_objects caller (Objects.Row "photos" key) = true ∨
     can_delete Policies.storage_objects caller (Objects.Row "photos" key) = true →
     ∃ u, caller = Some u ∧ Text.first_segment key = Uuid.to_text u) ∧
  can_insert Policies.storage_objects (Some U1) (Objects.Row "photos" name) = false ∧
  can_delete Policies.storage_objects (Some U1) (Objects.Row "photos" name) = false ∧
  (∀ f db, upload (Some U1) "photos" name f db = Err rls_violation) ∧
  (∀ db, remove (Some U1) "photos" [name] db = db) ∧
  (∀ caller key,
     can_select Policies.storage_objects caller (Objects.Row "photos" key) = true) ∧
  (∀ caller key db, download caller "photos" key db = bucket_photos db !! key).
Proof.
  intros V1 V2 Hne Hseg.
  pose proof (foreign_folder U1 U2 name V1 V2 Hne Hseg) as Hno.
  split; [|split; [|split; [|split; [|split; [|split]]]]].
  - intros caller key. rewrite storage_can_insert, storage_can_delete.
    intros Hok. assert (Hok' : is_true (Policies.own_folder caller (Objects.Row "photos" key)) = true)
      by (by destruct Hok).
    apply own_folder_spec in Hok' as (u & -> & Hfirst).
    exists u. split; [done|]. by apply foldername_first.
  - by rewrite storage_can_insert.
  - by rewrite storage_can_delete.
  - intros f db. unfold upload.
    rewrite bool_decide_eq_true_2 by done. by rewrite storage_can_insert, Hno.
  - intros db. unfold remove, remove_one. cbn [foldr].
    rewrite storage_can_delete, Hno, andb_false_r. by destruct db.
  - intros caller key. apply storage_can_select.
  - intros caller key db. unfold download. by rewrite storage_can_select.
Qed.

Lemma bucket_write_own_folder_read_public_witness :
  upload (Some Sample.alice) "photos" Sample.bob_path Sample.png Sample.db0
    = Err rls_violation ∧
  remove (Some Sample.alice) "photos" [Sample.bob_path] Sample.db0 = Sample.db0 ∧
  download None "photos" Sample.bob_path Sample.db0 = Some Sample.jpg.
Proof.
  assert (V1 : Uuid.valid Sample.alice) by (vm_compute; reflexivity).
  assert (V2 : Uuid.valid Sample.bob) by (vm_compute; reflexivity).
  assert (Hne : Sample.alice ≠ Sample.bob) by (vm_compute; discriminate).
  assert (Hseg : Text.first_segment Sample.bob_path = Uuid.to_text Sample.bob)
    by (vm_compute; reflexivity).
  destruct (bucket_write_own_folder_read_public
              Sample.alice Sample.bob Sample.bob_path V1 V2 Hne Hseg)
    as (_ & _ & _ & Hup & Hrm & _ & Hdl).
  split; [apply Hup|]. split; [apply Hrm|].
  rewrite Hdl. vm_compute. reflexivity.
Defined.

(** C5.  No policy for UPDATE exists on the photos table or on the storage
    objects, so for every caller, the owner of the row included, an update
    of a photo row or of a stored object is denied and leaves the table as it
    was; what the owner may do is delete the row and insert a new one. *)
Theorem photos_and_objects_immutable (caller : option uuid) (db : database) :
  (∀ p, p ∈ Policies.photos → pol_cmd p ≠ UPDATE) ∧
  (∀ p, p ∈ Policies.storage_objects → pol_cmd p ≠ UPDATE) ∧
  (∀ old new : Photos.row, can_update Policies.photos caller old new = false) ∧
  (∀ old new : Objects.row, can_update Policies.storage_objects caller old new = false) ∧
  (∀ cond upd,
     rls_update Policies.photos caller cond upd (photos db) = Ok (photos db)) ∧
  (∀ cond upd db', update_photos caller cond upd db = Ok db' → db' = db) ∧
  (∀ r : Photos.row,
     can_delete Policies.photos (Some (Photos.user_id r)) r = true ∧
     can_insert Policies.photos (Some (Photos.user_id r)) r = true).
Proof.
  split; [|split; [|split; [|split; [|split; [|split]]]]].
  - unfold Policies.photos. intros p. rewrite !elem_of_cons, elem_of_nil.
    intros [->|[->|[->|[]]]]; done.
  - unfold Policies.storage_objects. intros p. rewrite !elem_of_cons, elem_of_nil.
    intros [->|[->|[->|[->|[]]]]]; done.
  - intros old new. unfold can_update. by rewrite photos_admits_update.
  - intros old new. unfold can_update. by rewrite storage_admits_update.
  - intros cond upd. apply rls_update_unreached. intros r. apply photos_admits_update.
  - intros cond upd db'. unfold update_photos.
    rewrite rls_update_unreached by (intros r; apply photos_admits_update).
    case (photos_constraints db (photos db)); [|done].
    intros [= <-]. by destruct db.
  - intros r. rewrite photos_can_delete, photos_can_insert.
    by rewrite bool_decide_eq_true_2.
Qed.

(** C4.  The INSERT policy of the photos table reads the caller and the
    row's [user_id] only: a caller inserts a row under its own [user_id]
    whatever the [file_path], and in particular with a [file_path] whose
    first segment is another user's identifier. *)
Theorem photo_insert_ignores_file_path :
  (∀ (caller : uuid) id file_name file_path file_size now,
     can_insert Policies.photos (Some caller)
       (Photos.Row id caller file_name file_path file_size now) = true) ∧
  (∃ (caller : uuid) (file_path : string) (db' : database),
     Text.first_segment file_path ≠ Uuid.to_text caller ∧
     insert_photo (Some caller) caller "hills.jpg" file_path None 0x2ff%N 1700000100
       Sample.db0 = Ok db' ∧
     Photos.Row 0x2ff%N caller "hills.jpg" file_path None 1700000100 ∈ photos db').
Proof.
  split.
  - intros. rewrite photos_can_insert. by rewrite bool_decide_eq_true_2.
  - exists Sample.alice, Sample.bob_path. eexists. split; [|split].
    + vm_compute. discriminate.
    + vm_compute. reflexivity.
    + cbn. rewrite !elem_of_cons. auto 10.
Qed.

End Bucket.

(** ** Profile provisioning *)

Section Provisioning.
Import Sql Backend.

Lemma filter_absent {A} (f : A → uuid) (u : uuid) (l : list A) :
  u ∉ f <$> l → List.filter (λ x, bool_decide (f x = u)) l = [].
Proof.
  induction l as [|x l IH]; [done|]. cbn.
  rewrite not_elem_of_cons. intros [Hx Hl].
  rewrite bool_decide_eq_false_2 by congruence. by apply IH.
Qed.

Lemma insert_into_profiles_ok r db db' :
  insert_into_profiles r db = Ok db' →
  (Profiles.user_id r ∉ Profiles.user_id <$> profiles db) ∧
  db' = set_profiles (profiles db ++ [r]) db.
Proof.
  unfold insert_into_profiles. repeat case_bool_decide; try done.
  by intros [= <-].
Qed.

(** C3.  Creating a user runs [handle_new_user] within the same statement:
    when the creation returns, the database holds exactly one profile row
    for the new user, with the user's identifier and email, and the user
    reads it at once.  The row is inserted although the INSERT policy of
    the profiles table admits nothing for a principal without [auth.uid()];
    an error of the profile insert is the error of the user creation, which
    then adds no user; and with a fresh user identifier and a fresh profile
    identifier the creation succeeds. *)
Theorem new_user_gets_one_profile (NEW : AuthUsers.row) (gen_random_uuid : uuid)
    (now : Z) (db : database) :
  let profile :=
    Profiles.Row gen_random_uuid (AuthUsers.id NEW) (AuthUsers.email NEW) now in
  (∀ db', insert_into_auth_users NEW gen_random_uuid now db = Ok db' →
     auth_users db' = (auth_users db ++ [NEW])%list ∧
     profiles db' = (profiles db ++ [profile])%list ∧
     List.filter (λ p, bool_decide (Profiles.user_id p = AuthUsers.id NEW))
                 (profiles db') = [profile] ∧
     select_profiles (Some (AuthUsers.id NEW)) db' = [profile]) ∧
  can_insert Policies.profiles None profile = false ∧
  insert_profile None (AuthUsers.id NEW) (AuthUsers.email NEW) gen_random_uuid now db
    = Err rls_violation ∧
  (∀ e, AuthUsers.id NEW ∉ AuthUsers.id <$> auth_users db →
     insert_into_profiles profile (set_auth_users (auth_users db ++ [NEW]) db) = Err e →
     insert_into_auth_users NEW gen_random_uuid now db = Err e) ∧
  (profiles_refer_to_users db →
   AuthUsers.id NEW ∉ AuthUsers.id <$> auth_users db →
   gen_random_uuid ∉ Profiles.id <$> profiles db →
   ∃ db', insert_into_auth_users NEW gen_random_uuid now db = Ok db').
Proof.
  intros profile. split; [|split; [|split; [|split]]].
  - intros db'. unfold insert_into_auth_users, handle_new_user.
    case_bool_decide; [done|]. fold profile. intros Hins.
    apply insert_into_profiles_ok in Hins as [Hfresh ->]. cbn in *.
    split; [done|]. split; [done|].
    assert (Hone : List.filter
                     (λ p, bool_decide (Profiles.user_id p = AuthUsers.id NEW))
                     (profiles db ++ [profile]) = [profile]).
    { rewrite List.filter_app, filter_absent by done. cbn.
      by rewrite bool_decide_eq_true_2. }
    split; [done|].
    unfold select_profiles, rls_select. cbn. etrans; [|exact Hone].
    apply List.filter_ext. intros p. rewrite profiles_can_select.
    apply bool_decide_ext. split; [by intros [= ->] | by intros ->].
  - by rewrite profiles_can_insert.
  - unfold insert_profile. fold profile. by rewrite profiles_can_insert.
  - intros e Hfresh Herr. unfold insert_into_auth_users, handle_new_user.
    by rewrite bool_decide_eq_false_2.
  - intros Hfk Hfresh Hgen. unfold insert_into_auth_users, handle_new_user.
    rewrite bool_decide_eq_false_2 by done. fold profile.
    unfold insert_into_profiles. cbn.
    rewrite bool_decide_eq_false_2 by done.
    rewrite bool_decide_eq_false_2.
    2:{ intros Hin. apply list_elem_of_fmap in Hin as (p & Hp & Hin).
        apply Hfresh. rewrite Hp. by apply Hfk. }
    rewrite bool_decide_eq_true_2; [by eexists|].
    rewrite fmap_app. apply elem_of_app. right. cbn. apply list_elem_of_singleton. done.
Qed.

Lemma new_user_gets_one_profile_witness :
  ∃ db', insert_into_auth_users
           (AuthUsers.Row 0x77%N (Some "carol@example.org")) 0x102%N 1700000200
           Sample.db0 = Ok db'.
Proof.
  apply (new_user_gets_one_profile
           (AuthUsers.Row 0x77%N (Some "carol@example.org")) 0x102%N 1700000200
           Sample.db0).
  - intros p. unfold Sample.db0. cbn. rewrite !elem_of_cons, elem_of_nil.
    intros [->|[->|[]]]; cbn; auto.
  - unfold Sample.db0. cbn. rewrite !not_elem_of_cons.
    repeat split; try discriminate. apply not_elem_of_nil.
  - unfold Sample.db0. cbn. rewrite !not_elem_of_cons.
    repeat split; try discriminate. apply not_elem_of_nil.
Defined.

End Provisioning.

(** ** Deleting a photo *)

Section Deleting.
Import Gallery.

Lemma serve_fault r w rest :
  faults w = true :: rest →
  serve r w = (failed Sql.transport_failure,
               World (db w) (session w) (next_uuid w) (clock w) rest).
Proof. unfold serve. by intros ->. Qed.

Lemma serve_no_fault r w rest :
  faults w = false :: rest →
  serve r w = perform r (World (db w) (session w) (next_uuid w) (clock w) rest).
Proof. unfold serve. by intros ->. Qed.

(** C10.  When the removal of the stored file fails, [deletePhoto] sends
    nothing after it: no delete of the metadata row is attempted, the photo
    list of the component is unchanged, and the error is shown as a
    notification.  Against the reference backend the failed removal leaves
    the database, rows and objects, as it was. *)
Theorem failed_removal_stops_deletion {W} (serve : request → W → response * W)
    (photo : Photos.row) (st : state) (w : W) (e : Sql.error) :
  let removal := storage_remove "photos" [Photos.file_path photo] in
  error (serve removal w).1 = Some e →
  run serve (deletePhoto photo st) w
    = (show (toast_error (Sql.message e)) st, (serve removal w).2, [removal]) ∧
  photos (run serve (deletePhoto photo st) w).1.1 = photos st ∧
  toasts (run serve (deletePhoto photo st) w).1.1
    = (toasts st ++ [toast_error (Sql.message e)])%list ∧
  (∀ id, photos_delete_eq_id id ∉ (run serve (deletePhoto photo st) w).2) ∧
  (∀ (v : world) rest, faults v = true :: rest →
     db (run Gallery.serve (deletePhoto photo st) v).1.2 = db v ∧
     (run Gallery.serve (deletePhoto photo st) v).2 = [removal]).
Proof.
  intros removal He.
  assert (Hrun : run serve (deletePhoto photo st) w
                 = (show (toast_error (Sql.message e)) st, (serve removal w).2, [removal])).
  { unfold deletePhoto. cbn [run]. fold removal.
    destruct (serve removal w) as [x w1]. cbn in He. by rewrite He. }
  split; [done|]. rewrite Hrun. cbn.
  split; [done|]. split; [done|]. split.
  - intros id. rewrite elem_of_cons, elem_of_nil. intros [?|[]]; done.
  - intros v rest Hf. unfold deletePhoto. cbn [run]. fold removal.
    by rewrite (serve_fault _ _ _ Hf).
Qed.

(** C7.  [deletePhoto] first asks for the removal of the stored file and,
    only after it succeeded, for the deletion of the metadata row; these are
    the only requests it sends.  When the deletion fails after the file was
    removed, the reference backend still holds the metadata row while the
    object of its [file_path] is gone, the component only shows the error,
    and no further request follows. *)
Theorem delete_file_then_row_not_atomic {W} (serve : request → W → response * W)
    (photo : Photos.row) (st : state) (w : W) :
  let removal := storage_remove "photos" [Photos.file_path photo] in
  let deletion := photos_delete_eq_id (Photos.id photo) in
  ((run serve (deletePhoto photo st) w).2 = [removal] ∨
   (run serve (deletePhoto photo st) w).2 = [removal; deletion]) ∧
  (error (serve removal w).1 = None →
   ∀ e, error (serve deletion (serve removal w).2).1 = Some e →
     run serve (deletePhoto photo st) w
       = (show (toast_error (Sql.message e)) st,
          (serve deletion (serve removal w).2).2, [removal; deletion])) ∧
  (∀ (v : world) rest,
     faults v = false :: true :: rest →
     photo ∈ Backend.photos (db v) →
     Sql.can_delete Policies.storage_objects (session v)
       (Objects.Row "photos" (Photos.file_path photo)) = true →
     let '(st', v', sent) := run Gallery.serve (deletePhoto photo st) v in
     photo ∈ Backend.photos (db v') ∧
     Backend.bucket_photos (db v') !! Photos.file_path photo = None ∧
     sent = [removal; deletion] ∧
     st' = show (toast_error (Sql.message Sql.transport_failure)) st ∧
     faults v' = rest).
Proof.
  intros removal deletion. split; [|split].
  - unfold deletePhoto. cbn [run]. fold removal deletion.
    destruct (serve removal w) as [x w1]. destruct (error x); [by left|].
    cbn [run]. destruct (serve deletion w1) as [y w2].
    destruct (error y); by right.
  - intros Hok e He. unfold deletePhoto. cbn [run]. fold removal deletion.
    destruct (serve removal w) as [x w1]. cbn [fst snd] in *. rewrite Hok.
    cbn [run]. destruct (serve deletion w1) as [y w2]. cbn [fst snd] in *.
    by rewrite He.
  - intros v rest Hf Hin Hcan. subst removal deletion. unfold deletePhoto. cbn [run].
    rewrite (serve_no_fault _ _ _ Hf). cbn [perform answer error ok run].
    rewrite (serve_fault _ _ rest) by done.
    cbn. unfold Backend.remove_one.
    rewrite bool_decide_eq_true_2 by done.
    rewrite storage_can_select, Hcan. cbn.
    split; [done|]. split; [apply lookup_delete_eq|done].
Qed.

Lemma failed_removal_stops_deletion_witness :
  Gallery.photos
    (run Gallery.serve (deletePhoto Sample.alice_photo Sample.st0)
         (Sample.world0 [true])).1.1
  = Gallery.photos Sample.st0.
Proof.
  exact (proj1 (proj2 (failed_removal_stops_deletion Gallery.serve
                         Sample.alice_photo Sample.st0 (Sample.world0 [true])
                         Sql.transport_failure eq_refl))).
Defined.

Lemma delete_file_then_row_not_atomic_witness :
  let after := (run Gallery.serve (deletePhoto Sample.alice_photo Sample.st0)
                    (Sample.world0 [false; true])).1.2 in
  Backend.bucket_photos (db (Sample.world0 [false; true])) !! Sample.alice_path
    = Some Sample.png ∧
  Sample.alice_photo ∈ Backend.photos (db after) ∧
  Backend.bucket_photos (db after) !! Sample.alice_path = None.
Proof.
  intros after. split; [vm_compute; reflexivity|].
  assert (Hin : Sample.alice_photo ∈ Backend.photos (db (Sample.world0 [false; true])))
    by (cbn; rewrite !elem_of_cons; auto).
  assert (Hcan : Sql.can_delete Policies.storage_objects
                   (session (Sample.world0 [false; true]))
                   (Objects.Row "photos" (Photos.file_path Sample.alice_photo)) = true)
    by (vm_compute; reflexivity).
  pose proof (proj2 (proj2 (delete_file_then_row_not_atomic Gallery.serve
                              Sample.alice_photo Sample.st0 (Sample.world0 [])))
                (Sample.world0 [false; true]) [] eq_refl Hin Hcan) as H.
  subst after.
  destruct (run Gallery.serve (deletePhoto Sample.alice_photo Sample.st0)
                (Sample.world0 [false; true])) as [[st' v'] sent].
  destruct H as (H1 & H2 & _). split; [exact H1 | exact H2].
Defined.

End Deleting.

(** ** Uploading a file *)

Section Uploading.
Import Gallery.

(** Where the code's [fileExt] and the extension of the specification
    meet: a name with a dot splits into two segments or more, the last of
    which is the extension; a name without one is its own single segment. *)
Lemma split_dot_originalExtension (name : string) :
  match originalExtension name with
  | None => Text.split "." name = [name]
  | Some ext => ∃ w ws, Text.split "." name = w :: ws ∧ ws ≠ [] ∧ last ws = Some ext
  end.
Proof.
  induction name as [|a s IH]; [done|].
  cbn [originalExtension Text.split].
  destruct (originalExtension s) as [ext|].
  - destruct IH as (w & ws & -> & Hne & Hlast).
    destruct (Ascii.eqb a "."); eauto.
    exists EmptyString, (w :: ws). split; [done|]. split; [done|].
    destruct ws; [done|]. exact Hlast.
  - rewrite IH. destruct (Ascii.eqb a "."); [|done].
    by exists EmptyString, [s].
Qed.

Lemma fileExt_spec (file : File.t) :
  fileExt file = Some (default (File.name file) (originalExtension (File.name file))).
Proof.
  unfold fileExt. pose proof (split_dot_originalExtension (File.name file)) as H.
  destruct (originalExtension (File.name file)) as [ext|].
  - destruct H as (w & ws & -> & Hne & Hlast). destruct ws; [done|]. exact Hlast.
  - by rewrite H.
Qed.

(** The requests of an accepted upload, against any backend: the binary
    first, under [userId/Date.now().fileExt]; the metadata row, with that
    path, the user, the name and the size, only after the upload succeeded;
    then the refresh of the list. *)
Lemma uploadFile_protocol {W} (serve : request → W → response * W)
    (now : Z) (file : File.t) (st : state) (w : W) (uid : uuid) :
  userId st = Some uid →
  Text.startsWith "image/" (File.type file) = true →
  (File.size file ≤ 10 * 1024 * 1024)%Z →
  let path := Uuid.to_text uid +:+ "/" +:+ pretty now +:+ "." +:+
              interpolate (fileExt file) in
  let upload := storage_upload "photos" path file in
  let insert := photos_insert uid (File.name file) path (File.size file) in
  (error (serve upload w).1 ≠ None →
     (run serve (uploadFile now file st) w).2 = [upload]) ∧
  (error (serve upload w).1 = None →
     (run serve (uploadFile now file st) w).2 = [upload; insert] ∨
     (run serve (uploadFile now file st) w).2 = [upload; insert; photos_select_desc]).
Proof.
  intros Hu Himg Hsize path upload insert.
  assert (Hbig : (10 * 1024 * 1024 <? File.size file)%Z = false)
    by (apply Z.ltb_ge; lia).
  unfold uploadFile. rewrite Hu, Himg. cbn [negb]. rewrite Hbig.
  change (filePath uid now file) with path. fold upload insert. cbn [run].
  destruct (serve upload w) as [x w1]. cbn [fst snd].
  destruct (error x) as [e|]; (split; [|]); try done.
  intros _. cbn [run]. destruct (serve insert w1) as [y w2].
  destruct (error y) as [e|]; [by left|]. right.
  unfold fetchPhotos, show, setUploading. cbn [userId]. rewrite Hu. cbn [bind run].
  destruct (serve photos_select_desc w2) as [z w3].
  by destruct (error z).
Qed.

(** C6, at a file whose name has no dot.  The file has no extension, and
    [fileExt] is the whole name: the accepted upload of "scan" stores the
    binary under [alice/1700000200000.scan] and inserts the metadata row with
    that path.  On every name, [fileExt] is the extension when the name has a
    dot and the name itself when it has none. *)
Theorem upload_path_of_name_without_dot :
  originalExtension (File.name Sample.scan) = None ∧
  fileExt Sample.scan = Some "scan" ∧
  (run Gallery.serve (uploadFile 1700000200000 Sample.scan Sample.st0)
       (Sample.world0 [])).2
  = [ storage_upload "photos"
        "8d3f1c2a-5b6e-4f70-8192-a3b4c5d6e7f8/1700000200000.scan" Sample.scan;
      photos_insert Sample.alice "scan"
        "8d3f1c2a-5b6e-4f70-8192-a3b4c5d6e7f8/1700000200000.scan" 2048;
      photos_select_desc ] ∧
  (∀ file : File.t,
     fileExt file = match originalExtension (File.name file) with
                    | Some ext => Some ext
                    | None => Some (File.name file)
                    end).
Proof.
  split; [reflexivity|]. split; [reflexivity|]. split; [vm_compute; reflexivity|].
  intros file. rewrite fileExt_spec. by destruct (originalExtension _).
Qed.

(** C8.  With a user in the session, [uploadFile] sends no request exactly
    when the file's type does not start with "image/" or its size is above
    10 * 1024 * 1024 bytes; it then only shows an error and leaves the
    backend untouched.  An image of 5 MB passes, a file of 11 MB does not.
    The check is the client's alone: the storage policy admits the upload of
    any file under the caller's own folder. *)
Theorem upload_validation {W} (serve : request → W → response * W)
    (now : Z) (file : File.t) (st : state) (w : W) (uid : uuid) :
  userId st = Some uid →
  let invalid := Text.startsWith "image/" (File.type file) = false ∨
                 (10 * 1024 * 1024 < File.size file)%Z in
  ((run serve (uploadFile now file st) w).2 = [] ↔ invalid) ∧
  (invalid →
     (run serve (uploadFile now file st) w).1.2 = w ∧
     ∃ msg, (run serve (uploadFile now file st) w).1.1 = show (toast_error msg) st) ∧
  (∀ name,
     (run serve (uploadFile now (File.Make name "image/png" (5 * 1024 * 1024)) st) w).2
     ≠ []) ∧
  (∀ name type,
     (run serve (uploadFile now (File.Make name type (11 * 1024 * 1024)) st) w).2
     = []) ∧
  (∀ (f : File.t) (rest : string) (d : Backend.database),
     Backend.bucket_photos d !! (Uuid.to_text uid +:+ String "/" rest) = None →
     Backend.upload (Some uid) "photos" (Uuid.to_text uid +:+ String "/" rest) f d
     = Sql.Ok (Backend.set_bucket_photos
                 (<[Uuid.to_text uid +:+ String "/" rest := f]> (Backend.bucket_photos d)) d)).
Proof.
  intros Hu invalid.
  assert (Hcases : ∀ f : File.t,
            (Text.startsWith "image/" (File.type f) = false ∨
             (10 * 1024 * 1024 < File.size f)%Z →
             run serve (uploadFile now f st) w
             = (show (toast_error "Apenas imagens são permitidas") st, w, []) ∨
             run serve (uploadFile now f st) w
             = (show (toast_error "Arquivo muito grande (máx 10MB)") st, w, [])) ∧
            (¬ (Text.startsWith "image/" (File.type f) = false ∨
                (10 * 1024 * 1024 < File.size f)%Z) →
             (run serve (uploadFile now f st) w).2 ≠ [])).
  { intros f. unfold uploadFile. rewrite Hu.
    destruct (Text.startsWith "image/" (File.type f)); cbn [negb].
    - destruct (Z.ltb_spec (10 * 1024 * 1024) (File.size f)) as [Hbig|Hsmall].
      + split; [by right|]. intros H. destruct H. by right.
      + split; [intros [?|?]; [done|lia]|]. intros _. cbn [run].
        destruct (serve _ w) as [x w1]. by destruct (run serve _ w1) as [[? ?] ?].
    - split; [by left|]. intros H. destruct H. by left. }
  split; [|split; [|split; [|split]]].
  - destruct (Hcases file) as [Hrej Hacc]. split.
    + intros Hnone. destruct (decide invalid) as [|Hv]; [done|].
      by destruct (Hacc Hv).
    + intros Hinv. by destruct (Hrej Hinv) as [-> | ->].
  - intros Hinv. destruct (Hcases file) as [Hrej _].
    destruct (Hrej Hinv) as [-> | ->]; cbn; eauto.
  - intros name. apply Hcases. cbn. intros [?|?]; [done|lia].
  - intros name type. destruct (Hcases (File.Make name type (11 * 1024 * 1024))) as [Hrej _].
    destruct Hrej as [-> | ->]; [right; cbn; lia|done..].
  - intros f rest d Hfree. unfold Backend.upload.
    rewrite bool_decide_eq_true_2 by done.
    rewrite storage_can_insert.
    rewrite (proj2 (own_folder_spec (Some uid) _)).
    2:{ exists uid. split; [done|]. apply own_folder_first. }
    by rewrite Hfree.
Qed.

Lemma upload_validation_witness :
  (run Gallery.serve (uploadFile 1700000200000 Sample.png Sample.st0)
       (Sample.world0 [])).2 ≠ [] ∧
  (run Gallery.serve
       (uploadFile 1700000200000 (File.Make "notes.txt" "text/plain" 120) Sample.st0)
       (Sample.world0 [])).2 = [].
Proof.
  split.
  - intros Hnone.
    apply (proj1 (upload_validation Gallery.serve 1700000200000 Sample.png Sample.st0
                    (Sample.world0 []) Sample.alice eq_refl)) in Hnone.
    destruct Hnone as [H|H]; [discriminate H | vm_compute in H; discriminate H].
  - apply (proj1 (upload_validation Gallery.serve 1700000200000
                    (File.Make "notes.txt" "text/plain" 120) Sample.st0
                    (Sample.world0 []) Sample.alice eq_refl)).
    left. reflexivity.
Defined.

End Uploading.

(** ** Listing the photos *)

Section Listing.
Import Gallery.

#[local] Instance newer_first_total : Total Backend.newer_first.
Proof. intros a b. unfold Backend.newer_first. lia. Qed.

#[local] Instance newer_first_trans : Transitive Backend.newer_first.
Proof. intros a b c. unfold Backend.newer_first. lia. Qed.

Lemma select_photos_desc_spec (u : uuid) (d : Backend.database) :
  Backend.select_photos_desc (Some u) d
  ≡ₚ List.filter (λ p, bool_decide (Photos.user_id p = u)) (Backend.photos d) ∧
  StronglySorted Backend.newer_first (Backend.select_photos_desc (Some u) d).
Proof.
  unfold Backend.select_photos_desc. split.
  - rewrite merge_sort_Permutation. unfold Backend.rls_select.
    erewrite List.filter_ext; [reflexivity|].
    intros p. rewrite photos_can_select.
    apply bool_decide_ext. split; [by intros [= ->] | by intros ->].
  - apply StronglySorted_merge_sort; apply _.
Qed.

(** C9.  With user [u] in the session, [fetchPhotos] sends one select and
    sets the photo list to the rows of the photos table owned by [u], all of
    them and no others, the most recently created first. *)
Theorem listing_own_photos_newest_first (u : uuid) (st : state) (w : world) :
  userId st = Some u → session w = Some u → head (faults w) ≠ Some true →
  (run serve (fetchPhotos st) w).2 = [photos_select_desc] ∧
  photos (run serve (fetchPhotos st) w).1.1
  ≡ₚ List.filter (λ p, bool_decide (Photos.user_id p = u)) (Backend.photos (db w)) ∧
  StronglySorted Backend.newer_first (photos (run serve (fetchPhotos st) w).1.1) ∧
  (∀ p, p ∈ photos (run serve (fetchPhotos st) w).1.1 ↔
        p ∈ Backend.photos (db w) ∧ Photos.user_id p = u).
Proof.
  intros Hu Hs Hf.
  assert (Hrun : run serve (fetchPhotos st) w
                 = (setPhotos (λ _, Backend.select_photos_desc (Some u) (db w)) st,
                    World (db w) (session w) (next_uuid w) (clock w) (tail (faults w)),
                    [photos_select_desc])).
  { unfold fetchPhotos. rewrite Hu. cbn [run]. unfold serve.
    destruct w as [d s n c fs]. cbn in *. subst s.
    destruct fs as [|[] rest]; [done|by destruct Hf|done]. }
  rewrite Hrun. cbn [fst snd setPhotos photos].
  destruct (select_photos_desc_spec u (db w)) as [Hperm Hsorted].
  split; [done|]. split; [done|]. split; [done|].
  intros p. rewrite Hperm, list_elem_of_In, filter_In, <- list_elem_of_In.
  by rewrite bool_decide_eq_true.
Qed.

Lemma listing_own_photos_newest_first_witness :
  photos (run serve (fetchPhotos Sample.st0) (Sample.world0 [])).1.1
  = [Sample.alice_photo2; Sample.alice_photo] ∧
  StronglySorted Backend.newer_first
    (photos (run serve (fetchPhotos Sample.st0) (Sample.world0 [])).1.1).
Proof.
  split; [vm_compute; reflexivity|].
  apply (listing_own_photos_newest_first Sample.alice Sample.st0 (Sample.world0 []));
    [reflexivity | reflexivity | discriminate].
Defined.

End Listing.

(** * Further properties of the client and the schema *)

(** ** What a run of the client preserves *)

Section Runs.
Import Gallery.

Lemma run_invariant {A W} (serve : request → W → response * W) (Inv : W → Prop) :
  (∀ r w, Inv w → Inv (serve r w).2) →
  ∀ (p : client A) (w : W), Inv w → Inv (run serve p w).1.2.
Proof.
  intros Hstep p. induction p as [a|r k IH]; intros w Hw; cbn [run]; [done|].
  specialize (Hstep r w Hw). destruct (serve r w) as [x w1]. cbn [snd] in Hstep.
  specialize (IH x w1 Hstep). by destruct (run serve (k x) w1) as [[a w2] sent].
Qed.

Lemma answer_invariant (I : Backend.database → Prop) (caller : option uuid)
    (w : world) (res : Sql.result Backend.database) :
  session w = caller → I (db w) → (∀ d', res = Sql.Ok d' → I d') →
  session (answer w res).2 = caller ∧ I (db (answer w res).2).
Proof. intros Hs Hd Hok. destruct res as [d'|e]; cbn; eauto. Qed.

Lemma perform_invariant (caller : option uuid) (I : Backend.database → Prop) :
  (∀ b p f d d', Backend.upload caller b p f d = Sql.Ok d' → I d → I d') →
  (∀ b ps d, I d → I (Backend.remove caller b ps d)) →
  (∀ uid fn fp fs id now d d',
     Backend.insert_photo caller uid fn fp fs id now d = Sql.Ok d' → I d → I d') →
  (∀ cond d, I d → I (Backend.delete_photos caller cond d)) →
  ∀ r w, session w = caller → I (db w) →
         session (perform r w).2 = caller ∧ I (db (perform r w).2).
Proof.
  intros Hup Hrm Hins Hdel r w Hs Hd.
  destruct r; cbn [perform]; rewrite ?Hs.
  - apply answer_invariant; eauto.
  - apply answer_invariant; [done..|]. intros d' [= <-]. eauto.
  - done.
  - apply answer_invariant; eauto.
  - apply answer_invariant; [done..|]. intros d' [= <-]. eauto.
Qed.

(** An invariant of the four statements a request can run is an invariant
    of every run of every client program against the reference backend. *)
Lemma client_invariant (caller : option uuid) (I : Backend.database → Prop) :
  (∀ b p f d d', Backend.upload caller b p f d = Sql.Ok d' → I d → I d') →
  (∀ b ps d, I d → I (Backend.remove caller b ps d)) →
  (∀ uid fn fp fs id now d d',
     Backend.insert_photo caller uid fn fp fs id now d = Sql.Ok d' → I d → I d') →
  (∀ cond d, I d → I (Backend.delete_photos caller cond d)) →
  ∀ {A} (p : client A) (w : world), session w = caller → I (db w) →
    session (run serve p w).1.2 = caller ∧ I (db (run serve p w).1.2).
Proof.
  intros Hup Hrm Hins Hdel A p w Hs Hd.
  apply (run_invariant serve (λ v, session v = caller ∧ I (db v))); [|done].
  clear w Hs Hd. intros r w [Hs Hd]. unfold serve.
  destruct (faults w) as [|[] rest]; [| done |];
    apply (perform_invariant caller I); assumption.
Qed.

End Runs.

(** ** A client reaches its own data only *)

Section OwnDataOnly.
Import Sql Backend Gallery.

Lemma filter_all {A} (f : A → bool) (l : list A) :
  (∀ x, x ∈ l → f x = true) → List.filter f l = l.
Proof.
  induction l as [|x l IH]; [done|]. intros H. cbn.
  rewrite (H x) by (apply elem_of_cons; auto). f_equal.
  apply IH. intros y Hy. apply H, elem_of_cons. auto.
Qed.

Lemma filter_none {A} (f : A → bool) (l : list A) :
  (∀ x, x ∈ l → f x = false) → List.filter f l = [].
Proof.
  induction l as [|x l IH]; [done|]. intros H. cbn.
  rewrite (H x) by (apply elem_of_cons; auto).
  apply IH. intros y Hy. apply H, elem_of_cons. auto.
Qed.

Lemma filter_narrow {A} (f g : A → bool) (l : list A) :
  (∀ x, f x = true → g x = true) →
  List.filter f (List.filter g l) = List.filter f l.
Proof.
  intros Hfg. induction l as [|x l IH]; [done|]. cbn.
  destruct (g x) eqn:Hg; cbn; [by rewrite IH|].
  destruct (f x) eqn:Hf; [|done]. apply Hfg in Hf. congruence.
Qed.

Lemma set_bucket_photos_same (d : database) : set_bucket_photos (bucket_photos d) d = d.
Proof. by destruct d. Qed.

Lemma set_photos_same (d : database) : set_photos (Backend.photos d) d = d.
Proof. by destruct d. Qed.

(** A key the storage policies let [u] write or delete lies in [u]'s
    folder. *)
Lemma own_key (u : uuid) (key : string) :
  is_true (Policies.own_folder (Some u) (Objects.Row "photos" key)) = true →
  Text.first_segment key = Uuid.to_text u.
Proof.
  intros Hown. apply own_folder_spec in Hown as (u' & [= <-] & Hfirst).
  by apply foldername_first.
Qed.

Lemma remove_one_outside (u : uuid) (b path key : string) (m : gmap string File.t) :
  Text.first_segment key ≠ Uuid.to_text u →
  remove_one (Some u) b path m !! key = m !! key.
Proof.
  intros Hkey. unfold remove_one.
  case_bool_decide as Hb; cbn [andb]; [|done]. subst b.
  rewrite storage_can_select, storage_can_delete. cbn [andb].
  destruct (is_true _) eqn:Hown; [|done].
  apply own_key in Hown. apply lookup_delete_ne. congruence.
Qed.

Lemma upload_outside (u : uuid) b path f d d' :
  upload (Some u) b path f d = Ok d' → Schema.same_outside u d d'.
Proof.
  unfold upload. case_bool_decide as Hb; [|done]. subst b.
  rewrite storage_can_insert. destruct (is_true _) eqn:Hown; [|done].
  destruct (bucket_photos d !! path); [done|]. intros [= <-].
  apply own_key in Hown. repeat split; cbn.
  intros key Hkey. apply lookup_insert_ne. congruence.
Qed.

Lemma remove_outside (u : uuid) b paths d :
  Schema.same_outside u d (remove (Some u) b paths d).
Proof.
  repeat split; cbn. intros key Hkey.
  induction paths as [|path paths IH]; [done|]. cbn [foldr].
  by rewrite remove_one_outside.
Qed.

Lemma insert_photo_outside (u : uuid) uid fn fp fs id now d d' :
  insert_photo (Some u) uid fn fp fs id now d = Ok d' → Schema.same_outside u d d'.
Proof.
  unfold insert_photo. rewrite photos_can_insert. cbn.
  case_bool_decide as Hu; [|done]. injection Hu as <-.
  unfold insert_into_photos. repeat case_bool_decide; try done.
  intros [= <-]. repeat split; cbn.
  unfold Schema.photos_of_others. cbn. rewrite List.filter_app. cbn.
  rewrite bool_decide_eq_true_2 by done. cbn. by rewrite app_nil_r.
Qed.

Lemma delete_photos_outside (u : uuid) cond d :
  Schema.same_outside u d (delete_photos (Some u) cond d).
Proof.
  repeat split; cbn. unfold Schema.photos_of_others, rls_delete. cbn.
  apply filter_narrow. intros p Hp. unfold reached.
  rewrite photos_can_select.
  rewrite bool_decide_eq_false_2; [by rewrite andb_false_r|].
  intros [= ->]. by rewrite bool_decide_eq_true_2 in Hp.
Qed.

Lemma same_outside_trans (u : uuid) (d1 d2 d3 : database) :
  Schema.same_outside u d1 d2 → Schema.same_outside u d2 d3 →
  Schema.same_outside u d1 d3.
Proof.
  intros (Ha & Hb & Hc & Hd) (Ha' & Hb' & Hc' & Hd').
  repeat split; try congruence. intros key Hkey. by rewrite Hd', Hd.
Qed.

(** X1.  Whatever program the client of user [u] runs against the
    reference backend, and whichever requests are lost, the users, the
    profiles, the photo rows of the other users and the objects outside [u]'s
    folder are afterwards what they were. *)
Theorem client_changes_own_data_only (u : uuid) {A} (p : client A) (w : world) :
  session w = Some u →
  Schema.same_outside u (db w) (db (run serve p w).1.2).
Proof.
  intros Hs.
  apply (client_invariant (Some u) (Schema.same_outside u (db w))); try done.
  - intros b path f d d' Hup Hd. eapply same_outside_trans; [exact Hd|].
    by eapply upload_outside.
  - intros b ps d Hd. eapply same_outside_trans; [exact Hd|]. apply remove_outside.
  - intros uid fn fp fs id now d d' Hins Hd. eapply same_outside_trans; [exact Hd|].
    by eapply insert_photo_outside.
  - intros cond d Hd. eapply same_outside_trans; [exact Hd|].
    apply delete_photos_outside.
Qed.

Lemma client_changes_own_data_only_witness :
  bucket_photos
    (db (run serve
           (deletePhoto (Photos.Row 0x2ff%N Sample.alice "hills.jpg" Sample.bob_path
                           None 1700000100) Sample.st0)
           (Sample.world0 [])).1.2) !! Sample.bob_path
  = Some Sample.jpg.
Proof.
  destruct (client_changes_own_data_only Sample.alice
              (deletePhoto (Photos.Row 0x2ff%N Sample.alice "hills.jpg" Sample.bob_path
                              None 1700000100) Sample.st0)
              (Sample.world0 []) eq_refl) as (_ & _ & _ & Hkeys).
  rewrite Hkeys; [vm_compute; reflexivity | vm_compute; discriminate].
Defined.

(** X2.  A client without a user in its session changes nothing: after
    any program, the database of the reference backend is the one before;
    and a listing returns it no photo row. *)
Theorem anonymous_client_changes_nothing {A} (p : client A) (w : world) :
  session w = None →
  db (run serve p w).1.2 = db w ∧
  select_photos_desc None (db w) = [].
Proof.
  intros Hs. split.
  - apply (client_invariant None (λ d, d = db w)); try done.
    + intros b path f d d' Hup ->. revert Hup. unfold upload.
      case_bool_decide as Hb; [|done]. subst b. rewrite storage_can_insert.
      destruct (is_true _) eqn:Hown; [|done].
      by apply own_folder_spec in Hown as (u & ? & _).
    + intros b ps d ->. unfold remove.
      assert (H : foldr (remove_one None b) (bucket_photos (db w)) ps
                  = bucket_photos (db w)).
      { induction ps as [|path ps IH]; [done|]. cbn [foldr]. rewrite IH.
        unfold remove_one. case_bool_decide as Hb; cbn [andb]; [|done]. subst b.
        rewrite storage_can_delete. destruct (is_true _) eqn:Hown.
        - by apply own_folder_spec in Hown as (u & ? & _).
        - by rewrite andb_false_r. }
      rewrite H. apply set_bucket_photos_same.
    + intros cond d ->. unfold delete_photos, rls_delete.
      rewrite filter_all; [apply set_photos_same|].
      intros r _. unfold reached. rewrite photos_can_select.
      rewrite bool_decide_eq_false_2 by done. by rewrite andb_false_r.
  - unfold select_photos_desc, rls_select. rewrite filter_none; [done|].
    intros r _. rewrite photos_can_select. by rewrite bool_decide_eq_false_2.
Qed.

Lemma anonymous_client_changes_nothing_witness :
  db (run serve (uploadFile 1700000200000 Sample.png Sample.st0)
          (World Sample.db0 None 0x300%N 1700000100 [])).1.2 = Sample.db0.
Proof.
  apply (anonymous_client_changes_nothing
           (uploadFile 1700000200000 Sample.png Sample.st0)
           (World Sample.db0 None 0x300%N 1700000100 [])).
  reflexivity.
Defined.

End OwnDataOnly.

(** ** The constraints of the schema *)

Section Constraints.
Import Sql Backend Schema.

Lemma elem_of_fmap_filter {A B} (f : A → B) (g : A → bool) (l : list A) (y : B) :
  y ∈ f <$> List.filter g l → y ∈ f <$> l.
Proof.
  rewrite !list_elem_of_fmap. intros (x & -> & Hx). exists x. split; [done|].
  apply list_elem_of_In in Hx. apply filter_In in Hx as [Hx _].
  by apply list_elem_of_In.
Qed.

Lemma NoDup_fmap_filter {A B} (f : A → B) (g : A → bool) (l : list A) :
  NoDup (f <$> l) → NoDup (f <$> List.filter g l).
Proof.
  induction l as [|x l IH]; [done|]. cbn. rewrite NoDup_cons. intros [Hx Hl].
  destruct (g x); [|by apply IH]. cbn. apply NoDup_cons. split; [|by apply IH].
  intros Hin. by apply Hx, (elem_of_fmap_filter f g).
Qed.

Lemma fmap_filter_comm {A B} (f : A → B) (g : B → bool) (l : list A) :
  f <$> List.filter (λ x, g (f x)) l = List.filter g (f <$> l).
Proof.
  induction l as [|x l IH]; [done|]. cbn. destruct (g (f x)); cbn; by rewrite IH.
Qed.

Lemma filter_Permutation {A} (g : A → bool) (l k : list A) :
  l ≡ₚ k → List.filter g l ≡ₚ List.filter g k.
Proof.
  induction 1 as [|x l k _ IH|x y l|l k m _ IH1 _ IH2]; cbn.
  - done.
  - destruct (g x); by rewrite IH.
  - destruct (g x), (g y); try done. apply perm_swap.
  - by rewrite IH1.
Qed.

Lemma elem_of_filter_list {A} (g : A → bool) (l : list A) (x : A) :
  x ∈ List.filter g l ↔ x ∈ l ∧ g x = true.
Proof. by rewrite !list_elem_of_In, filter_In. Qed.

Lemma NoDup_snoc_fresh {B} (l : list B) (y : B) :
  NoDup l → y ∉ l → NoDup (l ++ [y]).
Proof.
  intros Hl Hy. apply NoDup_app. split; [done|]. split; [|apply NoDup_singleton].
  intros x Hx Hxy. apply list_elem_of_singleton in Hxy. by subst.
Qed.

Lemma consistent_insert_into_photos r d d' :
  consistent d → insert_into_photos r d = Ok d' → consistent d'.
Proof.
  intros (Hu & Hpi & Hpu & Hpf & Hi & Hf). unfold insert_into_photos.
  case_bool_decide as Hid; [done|]. case_bool_decide as Hfk; [|done].
  intros [= <-]. repeat split; cbn; try done.
  - rewrite fmap_app. by apply NoDup_snoc_fresh.
  - intros p. rewrite elem_of_app, list_elem_of_singleton. intros [?| ->]; auto.
Qed.

Lemma consistent_insert_into_profiles r d d' :
  consistent d → insert_into_profiles r d = Ok d' → consistent d'.
Proof.
  intros (Hu & Hpi & Hpu & Hpf & Hi & Hf). unfold insert_into_profiles.
  case_bool_decide as Hid; [done|]. case_bool_decide as Huid; [done|].
  case_bool_decide as Hfk; [|done].
  intros [= <-]. repeat split; cbn; try done.
  - rewrite fmap_app. by apply NoDup_snoc_fresh.
  - rewrite fmap_app. by apply NoDup_snoc_fresh.
  - intros p. rewrite elem_of_app, list_elem_of_singleton. intros [?| ->]; auto.
Qed.

Lemma consistent_insert_into_auth_users NEW id now d d' :
  consistent d → insert_into_auth_users NEW id now d = Ok d' → consistent d'.
Proof.
  intros (Hu & Hpi & Hpu & Hpf & Hi & Hf). unfold insert_into_auth_users, handle_new_user.
  case_bool_decide as Hid; [done|].
  apply consistent_insert_into_profiles. repeat split; cbn; try done.
  - rewrite fmap_app. by apply NoDup_snoc_fresh.
  - intros p Hp. rewrite fmap_app, elem_of_app. left. auto.
  - intros p Hp. rewrite fmap_app, elem_of_app. left. auto.
Qed.

Lemma consistent_delete_from_auth_users u d :
  consistent d → consistent (delete_from_auth_users u d).
Proof.
  intros (Hu & Hpi & Hpu & Hpf & Hi & Hf).
  assert (Hkeep : ∀ v, v ≠ u → v ∈ AuthUsers.id <$> auth_users d →
            v ∈ AuthUsers.id <$>
                List.filter (λ r, negb (bool_decide (AuthUsers.id r = u))) (auth_users d)).
  { intros v Hv. rewrite !list_elem_of_fmap. intros (r & -> & Hr). exists r.
    split; [done|]. apply elem_of_filter_list. split; [done|].
    by rewrite bool_decide_eq_false_2. }
  repeat split; cbn; try by apply NoDup_fmap_filter.
  - intros p Hp. apply elem_of_filter_list in Hp as [Hp Hne]. apply Hkeep; [|auto].
    intros Heq. by rewrite bool_decide_eq_true_2 in Hne.
  - intros p Hp. apply elem_of_filter_list in Hp as [Hp Hne]. apply Hkeep; [|auto].
    intros Heq. by rewrite bool_decide_eq_true_2 in Hne.
Qed.

Lemma consistent_update_profiles caller cond upd d d' :
  consistent d → update_profiles caller cond upd d = Ok d' → consistent d'.
Proof.
  intros (Hu & Hpi & Hpu & Hpf & Hi & Hf). unfold update_profiles.
  destruct (rls_update _ _ _ _ _) as [tbl|e]; [|done].
  destruct (profiles_constraints d tbl) eqn:Hc; [|done]. intros [= <-].
  unfold profiles_constraints in Hc.
  apply andb_prop in Hc as [Hc Hfk]. apply andb_prop in Hc as [Hid Huid].
  apply bool_decide_eq_true in Hid. apply bool_decide_eq_true in Huid.
  rewrite forallb_forall in Hfk.
  repeat split; cbn; try done.
  intros p Hp. apply list_elem_of_In in Hp. apply Hfk in Hp.
  by apply bool_decide_eq_true in Hp.
Qed.

Lemma consistent_delete_profiles caller cond d :
  consistent d → consistent (delete_profiles caller cond d).
Proof.
  intros (Hu & Hpi & Hpu & Hpf & Hi & Hf).
  repeat split; cbn; try done; try by apply NoDup_fmap_filter.
  intros p Hp. apply elem_of_filter_list in Hp as [Hp _]. auto.
Qed.

Lemma consistent_delete_photos caller cond d :
  consistent d → consistent (delete_photos caller cond d).
Proof.
  intros (Hu & Hpi & Hpu & Hpf & Hi & Hf).
  repeat split; cbn; try done; try by apply NoDup_fmap_filter.
  intros p Hp. apply elem_of_filter_list in Hp as [Hp _]. auto.
Qed.

Lemma consistent_upload caller b path f d d' :
  consistent d → upload caller b path f d = Ok d' → consistent d'.
Proof.
  intros Hd. unfold upload. case_bool_decide; [|done].
  destruct (can_insert _ _ _); [|done].
  destruct (bucket_photos d !! path); [done|]. by intros [= <-].
Qed.

Lemma update_photos_same caller cond upd d d' :
  update_photos caller cond upd d = Ok d' → d' = d.
Proof.
  unfold update_photos.
  rewrite rls_update_unreached by (intros r; apply photos_admits_update).
  destruct (photos_constraints d (photos d)); [|done]. intros [= <-]. by destruct d.
Qed.

(** X3.  The declared constraints (primary keys, UNIQUE (user_id) on
    profiles, the references to [auth.users]) hold after every statement
    that succeeds on a database where they hold: creating a user with its
    trigger, deleting a user with its cascade, the inserts, updates and
    deletes of callers under row level security, uploads and removals, and
    so after every run of a client program. *)
Theorem constraints_are_kept (d : database) :
  consistent d →
  (∀ NEW id now d', insert_into_auth_users NEW id now d = Ok d' → consistent d') ∧
  (∀ u, consistent (delete_from_auth_users u d)) ∧
  (∀ caller uid email id now d',
     insert_profile caller uid email id now d = Ok d' → consistent d') ∧
  (∀ caller cond upd d', update_profiles caller cond upd d = Ok d' → consistent d') ∧
  (∀ caller cond, consistent (delete_profiles caller cond d)) ∧
  (∀ caller uid fn fp fs id now d',
     insert_photo caller uid fn fp fs id now d = Ok d' → consistent d') ∧
  (∀ caller cond upd d', update_photos caller cond upd d = Ok d' → consistent d') ∧
  (∀ caller cond, consistent (delete_photos caller cond d)) ∧
  (∀ caller b path f d', upload caller b path f d = Ok d' → consistent d') ∧
  (∀ caller b paths, consistent (remove caller b paths d)) ∧
  (∀ {A} (p : Gallery.client A) (w : Gallery.world),
     Gallery.db w = d →
     consistent (Gallery.db (Gallery.run Gallery.serve p w).1.2)).
Proof.
  intros Hd. repeat apply conj.
  - intros NEW id now d'. by apply consistent_insert_into_auth_users.
  - intros u. by apply consistent_delete_from_auth_users.
  - intros caller uid email id now d'. unfold insert_profile.
    destruct (can_insert _ _ _); [|done]. by apply consistent_insert_into_profiles.
  - intros caller cond upd d'. by apply consistent_update_profiles.
  - intros caller cond. by apply consistent_delete_profiles.
  - intros caller uid fn fp fs id now d'. unfold insert_photo.
    destruct (can_insert _ _ _); [|done]. by apply consistent_insert_into_photos.
  - intros caller cond upd d' Hup. by rewrite (update_photos_same _ _ _ _ _ Hup).
  - intros caller cond. by apply consistent_delete_photos.
  - intros caller b path f d'. by apply consistent_upload.
  - done.
  - intros A p w <-.
    apply (client_invariant (Gallery.session w) consistent); try done.
    + intros b path f d d' Hup Hc. by eapply consistent_upload.
    + intros uid fn fp fs id now d d' Hins Hc. revert Hins. unfold insert_photo.
      destruct (can_insert _ _ _); [|done]. by apply consistent_insert_into_photos.
    + intros cond d Hc. by apply consistent_delete_photos.
Qed.

Lemma sample_consistent : consistent Sample.db0.
Proof.
  unfold consistent, Sample.db0. cbn.
  repeat apply conj; try (refine (bool_decide_unpack _ _); vm_compute; exact I).
  - intros p. rewrite !elem_of_cons, elem_of_nil.
    intros [->|[->|[]]]; cbn; auto.
  - intros p. rewrite !elem_of_cons, elem_of_nil.
    intros [->|[->|[->|[]]]]; cbn; auto.
Qed.

Lemma constraints_are_kept_witness :
  consistent
    (Gallery.db (Gallery.run Gallery.serve
                   (Gallery.uploadFile 1700000200000 Sample.png Sample.st0)
                   (Sample.world0 [])).1.2).
Proof.
  apply (constraints_are_kept Sample.db0 sample_consistent). reflexivity.
Defined.

Lemma profiles_admits_check_update caller r :
  admits_check Policies.profiles UPDATE caller r
  = bool_decide (caller = Some (Profiles.user_id r)).
Proof.
  unfold admits_check, Policies.profiles; cbn. unfold check_expr, using_expr; cbn.
  rewrite !(uid_is_owner_spec Profiles.user_id). by_command.
Qed.

Lemma rls_update_profiles_user_ids caller cond upd tbl tbl' :
  rls_update Policies.profiles caller cond upd tbl = Ok tbl' →
  Profiles.user_id <$> tbl' = Profiles.user_id <$> tbl.
Proof.
  unfold rls_update. destruct (forallb _ _) eqn:Hall; [|done]. intros [= <-].
  rewrite forallb_forall in Hall.
  induction tbl as [|r tbl IH]; [done|]. cbn. f_equal.
  - specialize (Hall r (or_introl eq_refl)).
    destruct (reached Policies.profiles UPDATE caller cond r) eqn:Hr; [|done].
    cbn [implb] in Hall. rewrite profiles_admits_check_update in Hall.
    unfold reached in Hr. apply andb_prop in Hr as [_ Hr].
    rewrite profiles_admits_update in Hr.
    apply bool_decide_eq_true in Hall, Hr. congruence.
  - apply IH. intros x Hx. apply Hall. by right.
Qed.

Lemma delete_profiles_same caller cond d : delete_profiles caller cond d = d.
Proof.
  unfold delete_profiles, rls_delete. rewrite filter_all; [by destruct d|].
  intros r _. unfold reached. fold (can_delete Policies.profiles caller r).
  by rewrite profiles_can_delete, andb_false_r.
Qed.

Lemma only_one {A} (f : A → uuid) (u : uuid) (l : list A) :
  NoDup (f <$> l) → u ∈ f <$> l →
  ∃ x, List.filter (λ y, bool_decide (f y = u)) l = [x].
Proof.
  induction l as [|x l IH]; cbn.
  - intros _ H. by apply elem_of_nil in H.
  - rewrite NoDup_cons, elem_of_cons. intros [Hx Hl] Hu.
    case_bool_decide as Hfx.
    + exists x. f_equal. apply filter_absent. by rewrite <- Hfx.
    + destruct Hu as [->|Hu]; [done|]. by apply IH.
Qed.

(** X4.  One profile per user is an invariant.  On a database that keeps
    the constraints and where the users with a profile are the users: every
    user has exactly one profile row; creating a user and deleting a user
    keep it so; an INSERT of a profile by a caller never succeeds; an UPDATE
    leaves the [user_id] of every profile as it was; a DELETE of profiles
    changes nothing; and no run of a client program touches users or
    profiles. *)
Theorem one_profile_per_user_kept (d : database) :
  consistent d → one_profile_per_user d →
  (∀ u, u ∈ AuthUsers.id <$> auth_users d →
     ∃ p, List.filter (λ q, bool_decide (Profiles.user_id q = u)) (profiles d) = [p]) ∧
  (∀ NEW id now d',
     insert_into_auth_users NEW id now d = Ok d' → one_profile_per_user d') ∧
  (∀ u, one_profile_per_user (delete_from_auth_users u d)) ∧
  (∀ caller uid email id now d',
     insert_profile caller uid email id now d ≠ Ok d') ∧
  (∀ caller cond upd d',
     update_profiles caller cond upd d = Ok d' →
     Profiles.user_id <$> profiles d' = Profiles.user_id <$> profiles d) ∧
  (∀ caller cond, delete_profiles caller cond d = d) ∧
  (∀ {A} (p : Gallery.client A) (w : Gallery.world),
     Gallery.db w = d →
     auth_users (Gallery.db (Gallery.run Gallery.serve p w).1.2) = auth_users d ∧
     profiles (Gallery.db (Gallery.run Gallery.serve p w).1.2) = profiles d).
Proof.
  intros (Hu & Hpi & Hpu & Hpf & Hi & Hf) Hone.
  unfold one_profile_per_user in Hone. repeat apply conj.
  - intros u Hin. apply only_one; [done|]. by rewrite Hone.
  - intros NEW id now d'. unfold insert_into_auth_users, handle_new_user.
    case_bool_decide; [done|]. intros Hins.
    apply insert_into_profiles_ok in Hins as [_ ->].
    unfold one_profile_per_user. cbn. rewrite !fmap_app. cbn. by rewrite Hone.
  - intros u. unfold one_profile_per_user, delete_from_auth_users. cbn.
    pose proof (fmap_filter_comm Profiles.user_id
                  (λ v, negb (bool_decide (v = u))) (profiles d)) as H1.
    pose proof (fmap_filter_comm AuthUsers.id
                  (λ v, negb (bool_decide (v = u))) (auth_users d)) as H2.
    cbn beta in H1, H2. rewrite H1, H2. by apply filter_Permutation.
  - intros caller uid email id now d'. unfold insert_profile.
    destruct (can_insert _ _ _); [|done]. unfold insert_into_profiles. cbn.
    case_bool_decide; [done|]. case_bool_decide as Hno; [done|].
    case_bool_decide as Hfk; [|done]. destruct Hno. by rewrite Hone.
  - intros caller cond upd d'. unfold update_profiles.
    destruct (rls_update _ _ _ _ _) as [tbl|e] eqn:Hup; [|done].
    destruct (profiles_constraints d tbl); [|done]. intros [= <-]. cbn.
    by eapply rls_update_profiles_user_ids.
  - intros caller cond. apply delete_profiles_same.
  - intros A p w <-.
    apply (client_invariant (Gallery.session w)
             (λ d', auth_users d' = auth_users (Gallery.db w) ∧
                    profiles d' = profiles (Gallery.db w))); try done.
    + intros b path f d d' Hup Hd. revert Hup. unfold upload.
      case_bool_decide; [|done]. destruct (can_insert _ _ _); [|done].
      destruct (bucket_photos d !! path); [done|]. by intros [= <-].
    + intros uid fn fp fs id now d d' Hins Hd. revert Hins.
      unfold insert_photo, insert_into_photos.
      destruct (can_insert _ _ _); [|done]. repeat case_bool_decide; try done.
      by intros [= <-].
Qed.

Lemma sample_one_profile_per_user : one_profile_per_user Sample.db0.
Proof. unfold one_profile_per_user, Sample.db0. cbn. reflexivity. Qed.

Lemma one_profile_per_user_kept_witness :
  ∃ p, List.filter (λ q, bool_decide (Profiles.user_id q = Sample.bob))
                   (profiles Sample.db0) = [p].
Proof.
  apply (one_profile_per_user_kept Sample.db0 sample_consistent
           sample_one_profile_per_user).
  unfold Sample.db0. cbn. rewrite !elem_of_cons. auto.
Defined.

End Constraints.

(** ** More on uploads *)

Section UploadRuns.
Import Gallery.

Lemma filePath_shape (u : uuid) (now : Z) (file : File.t) :
  filePath u now file = Uuid.to_text u +:+ String "/" (fileName now file).
Proof. reflexivity. Qed.

Lemma own_path_admitted (u : uuid) (now : Z) (file : File.t) :
  Sql.is_true (Policies.own_folder (Some u)
                 (Objects.Row "photos" (filePath u now file))) = true.
Proof.
  apply own_folder_spec. exists u. split; [done|].
  rewrite filePath_shape. apply own_folder_first.
Qed.

(** X5.  The path [uploadFile] builds lies in the uploader's folder
    whatever the name of the file and the time: its first segment is the text
    of the user's identifier, the storage policies admit the user's upload to
    it and removal of it, and they refuse both to every other user. *)
Theorem generated_path_is_own_folder (u : uuid) (now : Z) (file : File.t) :
  Text.first_segment (filePath u now file) = Uuid.to_text u ∧
  Sql.can_insert Policies.storage_objects (Some u)
    (Objects.Row "photos" (filePath u now file)) = true ∧
  Sql.can_delete Policies.storage_objects (Some u)
    (Objects.Row "photos" (filePath u now file)) = true ∧
  (∀ v : uuid, Uuid.valid u → Uuid.valid v → v ≠ u →
     Sql.can_insert Policies.storage_objects (Some v)
       (Objects.Row "photos" (filePath u now file)) = false ∧
     Sql.can_delete Policies.storage_objects (Some v)
       (Objects.Row "photos" (filePath u now file)) = false).
Proof.
  pose proof (own_path_admitted u now file) as Hown.
  assert (Hseg : Text.first_segment (filePath u now file) = Uuid.to_text u)
    by (by apply own_key).
  split; [done|]. rewrite storage_can_insert, storage_can_delete.
  split; [done|]. split; [done|].
  intros v Vu Vv Hne. rewrite storage_can_insert, storage_can_delete.
  by rewrite (foreign_folder v u _ Vv Vu Hne Hseg).
Qed.

(** X6.  An accepted upload, against any backend: the binary is sent
    first, to the generated path; when that fails nothing else is sent; when
    it succeeds the metadata row is sent, with the user, the name, the path
    and the size; the list is fetched again only after both succeeded.  On
    every path the run ends with [uploading] off and one notification more,
    or two when the refresh fails. *)
Theorem accepted_upload_runs {W} (serve : request → W → response * W)
    (now : Z) (file : File.t) (st : state) (w : W) (uid : uuid) :
  userId st = Some uid →
  Text.startsWith "image/" (File.type file) = true →
  (File.size file ≤ 10 * 1024 * 1024)%Z →
  let path := filePath uid now file in
  let upload := storage_upload "photos" path file in
  let insert := photos_insert uid (File.name file) path (File.size file) in
  let busy := setUploading true st in
  let r1 := serve upload w in
  let r2 := serve insert r1.2 in
  let r3 := serve photos_select_desc r2.2 in
  run serve (uploadFile now file st) w =
    match error r1.1 with
    | Some e => (setUploading false (show (toast_error (Sql.message e)) busy), r1.2, [upload])
    | None =>
        match error r2.1 with
        | Some e =>
            (setUploading false (show (toast_error (Sql.message e)) busy), r2.2,
             [upload; insert])
        | None =>
            let done := show (toast_success "Foto enviada com sucesso!") busy in
            (setUploading false
               match error r3.1 with
               | Some _ => show (toast_error "Erro ao carregar fotos") done
               | None => setPhotos (λ _, default [] (data r3.1)) done
               end,
             r3.2, [upload; insert; photos_select_desc])
        end
    end.
Proof.
  intros Hu Himg Hsize path upload insert busy r1 r2 r3.
  assert (Hbig : (10 * 1024 * 1024 <? File.size file)%Z = false)
    by (apply Z.ltb_ge; lia).
  unfold uploadFile. rewrite Hu, Himg. cbn [negb]. rewrite Hbig.
  fold path upload insert busy. cbn [run].
  subst r3 r2 r1. destruct (serve upload w) as [x w1]. cbn [fst snd].
  destruct (error x) as [e|]; [done|].
  cbn [run]. destruct (serve insert w1) as [y w2]. cbn [fst snd].
  destruct (error y) as [e|]; [done|].
  unfold fetchPhotos. replace (userId (show _ busy)) with (Some uid) by done.
  cbn [bind run]. destruct (serve photos_select_desc w2) as [z w3]. cbn [fst snd].
  by destruct (error z).
Qed.

Lemma accepted_upload_runs_witness :
  (run serve (uploadFile 1700000200000 Sample.png Sample.st0) (Sample.world0 [true])).2
  = [storage_upload "photos"
       "8d3f1c2a-5b6e-4f70-8192-a3b4c5d6e7f8/1700000200000.png" Sample.png].
Proof.
  rewrite (accepted_upload_runs serve 1700000200000 Sample.png Sample.st0
             (Sample.world0 [true]) Sample.alice eq_refl eq_refl);
    [reflexivity | vm_compute; discriminate].
Defined.

Lemma serve_upload_own (w : world) (u : uuid) (now : Z) (file : File.t) :
  session w = Some u → head (faults w) ≠ Some true →
  Backend.bucket_photos (db w) !! filePath u now file = None →
  serve (storage_upload "photos" (filePath u now file) file) w
  = (ok, World (Backend.set_bucket_photos
                  (<[filePath u now file := file]> (Backend.bucket_photos (db w))) (db w))
               (Some u) (next_uuid w + 1)%N (clock w + 1)%Z (tail (faults w))).
Proof.
  intros Hs Hf Hfree. unfold serve.
  assert (Hup : ∀ fs, perform (storage_upload "photos" (filePath u now file) file)
                        (World (db w) (session w) (next_uuid w) (clock w) fs)
                      = (ok, World (Backend.set_bucket_photos
                                      (<[filePath u now file := file]>
                                         (Backend.bucket_photos (db w))) (db w))
                                   (Some u) (next_uuid w + 1)%N (clock w + 1)%Z fs)).
  { intros fs. cbn [perform db session]. unfold Backend.upload.
    rewrite bool_decide_eq_true_2 by done. rewrite Hs, storage_can_insert.
    rewrite own_path_admitted, Hfree. reflexivity. }
  destruct w as [d s n c fs]. cbn in *.
  destruct fs as [|[] rest]; [apply Hup | by destruct Hf | apply Hup].
Qed.

(** X7.  An upload that goes through, against the reference backend: for
    the user of the session, a valid file, a free path and an identifier
    generator ahead of the rows in the table, the bucket then holds the file
    at the generated path, the photos table has one row more, owned by the
    user, with the name, that path and the size, the component lists it and
    ends with [uploading] off. *)
Theorem upload_stores_object_and_row (u : uuid) (now : Z) (file : File.t)
    (st : state) (w : world) :
  userId st = Some u → session w = Some u → faults w = [] →
  Text.startsWith "image/" (File.type file) = true →
  (File.size file ≤ 10 * 1024 * 1024)%Z →
  u ∈ AuthUsers.id <$> Backend.auth_users (db w) →
  Backend.bucket_photos (db w) !! filePath u now file = None →
  (∀ i, i ∈ Photos.id <$> Backend.photos (db w) → (i < next_uuid w)%N) →
  ∃ id created_at,
    let row := Photos.Row id u (File.name file) (filePath u now file)
                 (Some (File.size file)) created_at in
    let after := run serve (uploadFile now file st) w in
    after.2 = [ storage_upload "photos" (filePath u now file) file;
                photos_insert u (File.name file) (filePath u now file) (File.size file);
                photos_select_desc ] ∧
    Backend.bucket_photos (db after.1.2)
      = <[filePath u now file := file]> (Backend.bucket_photos (db w)) ∧
    Backend.photos (db after.1.2) = (Backend.photos (db w) ++ [row])%list ∧
    row ∈ photos after.1.1 ∧
    uploading after.1.1 = false ∧
    toasts after.1.1 = (toasts st ++ [toast_success "Foto enviada com sucesso!"])%list.
Proof.
  intros Hu Hs Hf Himg Hsize Huser Hfree Hgen.
  exists (next_uuid w + 1)%N, (clock w + 1)%Z. intros row after.
  assert (Hbig : (10 * 1024 * 1024 <? File.size file)%Z = false)
    by (apply Z.ltb_ge; lia).
  assert (Hrun : after =
    (setUploading false
       (setPhotos (λ _, Backend.select_photos_desc (Some u)
                          (Backend.set_photos (Backend.photos (db w) ++ [row])
                             (Backend.set_bucket_photos
                                (<[filePath u now file := file]>
                                   (Backend.bucket_photos (db w))) (db w))))
          (show (toast_success "Foto enviada com sucesso!") (setUploading true st))),
     World (Backend.set_photos (Backend.photos (db w) ++ [row])
              (Backend.set_bucket_photos
                 (<[filePath u now file := file]> (Backend.bucket_photos (db w))) (db w)))
           (Some u) (next_uuid w + 1 + 1)%N (clock w + 1 + 1)%Z [],
     [ storage_upload "photos" (filePath u now file) file;
       photos_insert u (File.name file) (filePath u now file) (File.size file);
       photos_select_desc ])).
  { subst after. unfold uploadFile. rewrite Hu, Himg. cbn [negb]. rewrite Hbig.
    cbn [run]. rewrite (serve_upload_own w u now file) by (by rewrite ?Hf).
    rewrite Hf. cbn [tail error ok run].
    unfold serve at 1. cbn [faults perform session db next_uuid clock].
    unfold Backend.insert_photo. rewrite photos_can_insert.
    rewrite bool_decide_eq_true_2 by done. unfold Backend.insert_into_photos.
    cbn [Photos.id Photos.user_id Backend.photos Backend.auth_users
         Backend.set_bucket_photos].
    rewrite bool_decide_eq_false_2.
    2:{ intros Hin. apply Hgen in Hin. lia. }
    rewrite bool_decide_eq_true_2 by done.
    cbn [answer error ok run]. unfold fetchPhotos.
    replace (userId (show _ (setUploading true st))) with (Some u) by done.
    cbn [bind run]. unfold serve at 1. cbn [faults perform error data session db].
    reflexivity. }
  rewrite Hrun. cbn [fst snd]. split; [done|]. split; [done|]. split; [done|].
  split; [|done]. cbn [setUploading setPhotos photos show].
  destruct (select_photos_desc_spec u
              (Backend.set_photos (Backend.photos (db w) ++ [row])
                 (Backend.set_bucket_photos
                    (<[filePath u now file := file]> (Backend.bucket_photos (db w)))
                    (db w)))) as [Hperm _].
  rewrite Hperm. apply elem_of_filter_list. cbn. split.
  - apply elem_of_app. right. by apply list_elem_of_singleton.
  - by rewrite bool_decide_eq_true_2.
Qed.

Lemma upload_stores_object_and_row_witness :
  Backend.bucket_photos
    (db (run serve (uploadFile 1700000200000 Sample.png Sample.st0)
             (Sample.world0 [])).1.2)
    !! "8d3f1c2a-5b6e-4f70-8192-a3b4c5d6e7f8/1700000200000.png"
  = Some Sample.png.
Proof.
  assert (Hsize : (File.size Sample.png ≤ 10 * 1024 * 1024)%Z)
    by (vm_compute; discriminate).
  assert (Huser : Sample.alice ∈
                  AuthUsers.id <$> Backend.auth_users (db (Sample.world0 []))).
  { unfold Sample.world0, Sample.db0. cbn. rewrite !elem_of_cons. auto. }
  assert (Hgen : ∀ i, i ∈ Photos.id <$> Backend.photos (db (Sample.world0 [])) →
                      (i < next_uuid (Sample.world0 []))%N).
  { unfold Sample.world0, Sample.db0. cbn. intros i.
    rewrite !elem_of_cons, elem_of_nil. intros [->|[->|[->|[]]]]; reflexivity. }
  destruct (upload_stores_object_and_row Sample.alice 1700000200000 Sample.png
              Sample.st0 (Sample.world0 []) eq_refl eq_refl eq_refl eq_refl
              Hsize Huser eq_refl Hgen) as (id & created & _ & Hb & _).
  rewrite Hb. apply lookup_insert_eq.
Defined.

(** X8.  The orphaned file.  When the upload went through and the insert
    of the metadata row is lost, the reference backend holds the file at the
    generated path but no row more than before; the component shows the
    error, ends with [uploading] off and sends nothing to take the file
    back. *)
Theorem lost_insert_leaves_orphan_file (u : uuid) (now : Z) (file : File.t)
    (st : state) (w : world) (rest : list bool) :
  userId st = Some u → session w = Some u → faults w = false :: true :: rest →
  Text.startsWith "image/" (File.type file) = true →
  (File.size file ≤ 10 * 1024 * 1024)%Z →
  Backend.bucket_photos (db w) !! filePath u now file = None →
  let after := run serve (uploadFile now file st) w in
  after.2 = [ storage_upload "photos" (filePath u now file) file;
              photos_insert u (File.name file) (filePath u now file) (File.size file) ] ∧
  Backend.bucket_photos (db after.1.2) !! filePath u now file = Some file ∧
  Backend.photos (db after.1.2) = Backend.photos (db w) ∧
  after.1.1 = setUploading false
                (show (toast_error (Sql.message Sql.transport_failure))
                      (setUploading true st)) ∧
  faults after.1.2 = rest.
Proof.
  intros Hu Hs Hf Himg Hsize Hfree after.
  assert (Hbig : (10 * 1024 * 1024 <? File.size file)%Z = false)
    by (apply Z.ltb_ge; lia).
  subst after. unfold uploadFile. rewrite Hu, Himg. cbn [negb]. rewrite Hbig.
  cbn [run]. rewrite (serve_upload_own w u now file) by (by rewrite ?Hf).
  rewrite Hf. cbn [tail error ok run].
  rewrite (serve_fault _ _ rest) by done. cbn.
  split; [done|]. split; [apply lookup_insert_eq|done].
Qed.

Lemma lost_insert_leaves_orphan_file_witness :
  Backend.photos
    (db (run serve (uploadFile 1700000200000 Sample.png Sample.st0)
             (Sample.world0 [false; true])).1.2)
  = Backend.photos Sample.db0.
Proof.
  apply (lost_insert_leaves_orphan_file Sample.alice 1700000200000 Sample.png
           Sample.st0 (Sample.world0 [false; true]) []); try reflexivity.
  vm_compute. discriminate.
Defined.

(** X9.  No overwrite.  When the bucket already holds an object at the
    generated path, for one, from a file of the same extension uploaded in the
    same millisecond, the upload is refused or lost: the component sends that
    one request, shows an error and ends with [uploading] off, and the
    database, with the object that was there, is unchanged.  The path
    depends on the file only through the last segment of its name. *)
Theorem occupied_path_is_not_overwritten (u : uuid) (now : Z) (file held : File.t)
    (st : state) (w : world) :
  userId st = Some u →
  Text.startsWith "image/" (File.type file) = true →
  (File.size file ≤ 10 * 1024 * 1024)%Z →
  Backend.bucket_photos (db w) !! filePath u now file = Some held →
  let after := run serve (uploadFile now file st) w in
  after.2 = [storage_upload "photos" (filePath u now file) file] ∧
  db after.1.2 = db w ∧
  (∃ e, after.1.1 = setUploading false
                      (show (toast_error (Sql.message e)) (setUploading true st))) ∧
  (∀ other : File.t, fileExt other = fileExt file →
     filePath u now other = filePath u now file).
Proof.
  intros Hu Himg Hsize Hheld after.
  assert (Hbig : (10 * 1024 * 1024 <? File.size file)%Z = false)
    by (apply Z.ltb_ge; lia).
  assert (Hperf : ∀ fs, ∃ e,
            perform (storage_upload "photos" (filePath u now file) file)
              (World (db w) (session w) (next_uuid w) (clock w) fs)
            = (failed e, World (db w) (session w) (next_uuid w) (clock w) fs)).
  { intros fs. cbn [perform db session]. unfold Backend.upload.
    rewrite bool_decide_eq_true_2 by done. rewrite Hheld.
    destruct (Sql.can_insert _ _ _); eauto. }
  assert (Hserve : ∃ e fs,
            serve (storage_upload "photos" (filePath u now file) file) w
            = (failed e, World (db w) (session w) (next_uuid w) (clock w) fs)).
  { unfold serve. destruct (faults w) as [|[] fs] eqn:Hf.
    - destruct (Hperf []) as [e He]. exists e, []. rewrite <- He.
      destruct w; cbn in *; by subst.
    - by exists Sql.transport_failure, fs.
    - destruct (Hperf fs) as [e He]. by exists e, fs. }
  destruct Hserve as (e & fs & Hserve).
  subst after. unfold uploadFile. rewrite Hu, Himg. cbn [negb]. rewrite Hbig.
  cbn [run]. rewrite Hserve. cbn.
  split; [done|]. split; [done|]. split; [by exists e|].
  intros other Hext. unfold filePath, fileName. by rewrite Hext.
Qed.

Lemma occupied_path_is_not_overwritten_witness :
  db (run serve (uploadFile 1700000000000 (File.Make "other.png" "image/png" 10)
                   Sample.st0) (Sample.world0 [])).1.2
  = Sample.db0.
Proof.
  apply (occupied_path_is_not_overwritten Sample.alice 1700000000000
           (File.Make "other.png" "image/png" 10) Sample.png Sample.st0
           (Sample.world0 [])); try reflexivity.
  vm_compute. discriminate.
Defined.

End UploadRuns.

(** ** More on deletions *)

Section DeleteRuns.
Import Gallery.

(** X10.  A deletion that goes through, against the reference backend:
    for a photo of the session's user whose file lies in the user's folder,
    the object of its path is gone from the bucket, the row is gone from the
    table while the rows of other identifiers stay, and the component drops
    the photo from its list and shows the success. *)
Theorem delete_removes_object_and_row (u : uuid) (photo : Photos.row)
    (st : state) (w : world) :
  session w = Some u → Photos.user_id photo = u → faults w = [] →
  Sql.can_delete Policies.storage_objects (Some u)
    (Objects.Row "photos" (Photos.file_path photo)) = true →
  let after := run serve (deletePhoto photo st) w in
  after.2 = [ storage_remove "photos" [Photos.file_path photo];
              photos_delete_eq_id (Photos.id photo) ] ∧
  Backend.bucket_photos (db after.1.2)
    = delete (Photos.file_path photo) (Backend.bucket_photos (db w)) ∧
  (photo ∉ Backend.photos (db after.1.2)) ∧
  (∀ q, Photos.id q ≠ Photos.id photo →
        (q ∈ Backend.photos (db after.1.2) ↔ q ∈ Backend.photos (db w))) ∧
  photos after.1.1
    = List.filter (λ p, negb (bool_decide (Photos.id p = Photos.id photo))) (photos st) ∧
  toasts after.1.1 = (toasts st ++ [toast_success "Foto excluída"])%list.
Proof.
  intros Hs Hown Hf Hcan after.
  assert (Hrun : after =
    (setPhotos (List.filter (λ p, negb (bool_decide (Photos.id p = Photos.id photo))))
               (show (toast_success "Foto excluída") st),
     World (Backend.delete_photos (Some u)
              (λ p, bool_decide (Photos.id p = Photos.id photo))
              (Backend.set_bucket_photos
                 (delete (Photos.file_path photo) (Backend.bucket_photos (db w))) (db w)))
           (Some u) (next_uuid w + 1 + 1)%N (clock w + 1 + 1)%Z [],
     [ storage_remove "photos" [Photos.file_path photo];
       photos_delete_eq_id (Photos.id photo) ])).
  { subst after. unfold deletePhoto. cbn [run]. unfold serve at 1. rewrite Hf.
    cbn [perform answer error ok run]. unfold serve at 1.
    cbn [faults perform answer error ok run session db next_uuid clock].
    rewrite Hs, Hf. unfold Backend.remove. cbn [foldr]. unfold Backend.remove_one.
    rewrite bool_decide_eq_true_2 by done. rewrite storage_can_select, Hcan.
    reflexivity. }
  rewrite Hrun. cbn [fst snd]. split; [done|]. split; [done|].
  cbn [db Backend.delete_photos Backend.set_photos Backend.photos
       Backend.set_bucket_photos].
  unfold Backend.rls_delete.
  assert (Hreach : ∀ q, Backend.reached Policies.photos Sql.DELETE (Some u)
                          (λ p, bool_decide (Photos.id p = Photos.id photo)) q
                        = bool_decide (Photos.id q = Photos.id photo)
                          && bool_decide (Some u = Some (Photos.user_id q))).
  { intros q. unfold Backend.reached.
    fold (Sql.can_delete Policies.photos (Some u) q).
    rewrite photos_can_select, photos_can_delete.
    by destruct (bool_decide (Photos.id q = _)), (bool_decide (Some u = _)). }
  split; [|split; [|done]].
  - rewrite elem_of_filter_list, Hreach. intros [_ Hkeep].
    rewrite !bool_decide_eq_true_2 in Hkeep by (by rewrite ?Hown). done.
  - intros q Hq. rewrite elem_of_filter_list, Hreach.
    rewrite (bool_decide_eq_false_2 (Photos.id q = Photos.id photo)) by done.
    cbn. tauto.
Qed.

Lemma delete_removes_object_and_row_witness :
  Sample.alice_photo ∉
    Backend.photos
      (db (run serve (deletePhoto Sample.alice_photo Sample.st0) (Sample.world0 [])).1.2).
Proof.
  apply (delete_removes_object_and_row Sample.alice Sample.alice_photo Sample.st0
           (Sample.world0 []) eq_refl eq_refl eq_refl).
  vm_compute. reflexivity.
Defined.

End DeleteRuns.

(** ** The reach of the storage policies *)

Section StorageScope.
Import Sql Policies.

(** X11.  The storage policies speak of the photos bucket only: in any
    other bucket they admit no read, upload or removal.  And the per-user
    SELECT policy has no effect beside the public one: a caller may read an
    object exactly when it is in the photos bucket. *)
Theorem storage_policies_scope (caller : option uuid) (o : Objects.row) :
  (Objects.bucket_id o ≠ "photos" →
     can_select storage_objects caller o = false ∧
     can_insert storage_objects caller o = false ∧
     can_delete storage_objects caller o = false) ∧
  (is_true (own_folder caller o) = true → is_true (in_photos_bucket caller o) = true) ∧
  can_select storage_objects caller o = bool_decide (Objects.bucket_id o = "photos").
Proof.
  assert (Hown : is_true (own_folder caller o) = true → Objects.bucket_id o = "photos").
  { unfold own_folder, sql_and. unfold sql_eq at 1.
    case_bool_decide as Hb; [done|]. discriminate. }
  assert (Hpub : is_true (in_photos_bucket caller o)
                 = bool_decide (Objects.bucket_id o = "photos")).
  { unfold in_photos_bucket, sql_eq. cbn.
    repeat case_bool_decide; congruence. }
  assert (Hsel : can_select storage_objects caller o
                 = bool_decide (Objects.bucket_id o = "photos")).
  { unfold can_select, admits_using, storage_objects, using_expr.
    cbn [existsb pol_cmd pol_using]. rewrite Hpub.
    rewrite (bool_decide_eq_false_2 (INSERT = SELECT)) by done.
    rewrite (bool_decide_eq_false_2 (DELETE = SELECT)) by done.
    rewrite (bool_decide_eq_true_2 (SELECT = SELECT)) by done. cbn [andb orb].
    destruct (is_true (own_folder caller o)) eqn:Ho; cbn [orb].
    - by rewrite (bool_decide_eq_true_2 _ (Hown eq_refl)).
    - by rewrite orb_false_r. }
  split; [|split; [|done]].
  - intros Hb.
    assert (Hno : is_true (own_folder caller o) = false).
    { apply not_true_is_false. intros Ho. by apply Hb, Hown. }
    split; [by rewrite Hsel, bool_decide_eq_false_2|].
    unfold can_insert, can_delete, admits_check, admits_using, storage_objects,
      check_expr, using_expr.
    cbn [existsb pol_cmd pol_using pol_with_check].
    rewrite Hno. rewrite !andb_false_r. cbn [orb].
    rewrite (bool_decide_eq_false_2 (SELECT = INSERT)) by done.
    rewrite (bool_decide_eq_false_2 (SELECT = DELETE)) by done. done.
  - intros Ho. rewrite Hpub. by rewrite bool_decide_eq_true_2 by auto.
Qed.

Lemma storage_policies_scope_witness :
  can_insert storage_objects (Some Sample.alice)
    (Objects.Row "avatars" "8d3f1c2a-5b6e-4f70-8192-a3b4c5d6e7f8/me.png") = false.
Proof.
  assert (Hb : Objects.bucket_id
                 (Objects.Row "avatars" "8d3f1c2a-5b6e-4f70-8192-a3b4c5d6e7f8/me.png")
               ≠ "photos") by (cbn; discriminate).
  exact (proj1 (proj2 (proj1 (storage_policies_scope (Some Sample.alice)
           (Objects.Row "avatars" "8d3f1c2a-5b6e-4f70-8192-a3b4c5d6e7f8/me.png")) Hb))).
Defined.

End StorageScope.

(** ** Signing in, and the session of the gallery *)

Section Session.
Import AuthApi.

(** X12.  [handleSubmit] against any auth backend: it sends one request,
    the sign-in with the typed email and password in login mode and the
    sign-up with the page origin as redirect otherwise; it always ends with
    [loading] off and exactly one notification more; it navigates to the
    gallery exactly when a sign-in came back without error, and never after a
    sign-up; the typed email and password and the mode are kept. *)
Theorem handleSubmit_outcomes {W} (serve : request → W → response * W)
    (origin : string) (st : AuthPage.state) (w : W) :
  let sent := if AuthPage.isLogin st
              then signInWithPassword (AuthPage.email st) (AuthPage.password st)
              else signUp (AuthPage.email st) (AuthPage.password st) origin in
  let after := run serve (AuthPage.handleSubmit origin st) w in
  after.2 = [sent] ∧
  after.1.2 = (serve sent w).2 ∧
  AuthPage.loading after.1.1 = false ∧
  AuthPage.isLogin after.1.1 = AuthPage.isLogin st ∧
  AuthPage.email after.1.1 = AuthPage.email st ∧
  AuthPage.password after.1.1 = AuthPage.password st ∧
  AuthPage.navigated after.1.1
    = (AuthPage.navigated st ++
       match error (serve sent w).1 with
       | None => if AuthPage.isLogin st then ["/gallery"] else []
       | Some _ => []
       end)%list ∧
  AuthPage.toasts after.1.1
    = (AuthPage.toasts st ++
       [match error (serve sent w).1 with
        | Some msg => Gallery.toast_error msg
        | None =>
            Gallery.toast_success
              (if AuthPage.isLogin st then "Login realizado com sucesso!"
               else "Cadastro realizado! Verifique seu email para confirmar.")
        end])%list.
Proof.
  intros sent after. subst sent after. unfold AuthPage.handleSubmit.
  cbn [AuthPage.setLoading AuthPage.isLogin AuthPage.email AuthPage.password].
  destruct (AuthPage.isLogin st) eqn:Hmode; cbn [run];
    destruct (serve _ w) as [x w1]; cbn [fst snd];
    destruct (error x); cbn; by rewrite ?app_nil_r, ?Hmode.
Qed.

(** X13.  The gallery needs a session.  Mounted without a session, the
    component navigates to the sign-in page and keeps no user, so neither
    [fetchPhotos] nor [uploadFile] sends a request to any backend; with the
    session of user [u] it keeps [u] and stays, and [fetchPhotos] then sends
    its select.  The state-change callback does the same without asking.
    Logging out sends one sign-out and navigates to the sign-in page whatever
    the answer, keeping the state of the gallery as it is. *)
Theorem gallery_needs_a_session {W V} (auth : request → W → response * W)
    (data : Gallery.request → V → Gallery.response * V) (w : W) (v : V) :
  let pg := (run auth (GalleryPage.checkAuth GalleryPage.mounted) w).1.1 in
  (run auth (GalleryPage.checkAuth GalleryPage.mounted) w).2 = [getSession] ∧
  pg = GalleryPage.onAuthStateChange (session_user (auth getSession w).1)
         GalleryPage.mounted ∧
  (session_user (auth getSession w).1 = None →
     GalleryPage.navigated pg = ["/auth"] ∧
     GalleryPage.gallery pg = GalleryPage.gallery GalleryPage.mounted ∧
     Gallery.run data (Gallery.fetchPhotos (GalleryPage.gallery pg)) v
       = (GalleryPage.gallery pg, v, []) ∧
     ∀ now file,
       Gallery.run data (Gallery.uploadFile now file (GalleryPage.gallery pg)) v
       = (GalleryPage.gallery pg, v, [])) ∧
  (∀ u, session_user (auth getSession w).1 = Some u →
     GalleryPage.navigated pg = [] ∧
     Gallery.userId (GalleryPage.gallery pg) = Some u ∧
     (Gallery.run data (Gallery.fetchPhotos (GalleryPage.gallery pg)) v).2
       = [Gallery.photos_select_desc]) ∧
  (∀ any : GalleryPage.page,
     run auth (GalleryPage.handleLogout any) w
     = (GalleryPage.Page (GalleryPage.gallery any)
          (GalleryPage.navigated any ++ ["/auth"]),
        (auth signOut w).2, [signOut])).
Proof.
  intros pg. subst pg. unfold GalleryPage.checkAuth, GalleryPage.handleLogout.
  cbn [run]. destruct (auth getSession w) as [x w1]. cbn [fst snd].
  repeat apply conj.
  - by destruct (session_user x).
  - by destruct (session_user x).
  - by intros ->.
  - intros u ->. cbn. split; [done|]. split; [done|].
    destruct (data Gallery.photos_select_desc v) as [y v1].
    by destruct (Gallery.error y).
  - intros any. by destruct (auth signOut w) as [y w2].
Qed.

Lemma gallery_needs_a_session_witness :
  Gallery.run Gallery.serve
    (Gallery.fetchPhotos
       (GalleryPage.gallery
          (run (λ _ (w : unit), (Response None None, w))
               (GalleryPage.checkAuth GalleryPage.mounted) tt).1.1))
    (Sample.world0 [])
  = (GalleryPage.gallery
       (run (λ _ (w : unit), (Response None None, w))
            (GalleryPage.checkAuth GalleryPage.mounted) tt).1.1,
     Sample.world0 [], []).
Proof.
  exact (proj1 (proj2 (proj2 (proj1 (proj2 (proj2
           (gallery_needs_a_session (λ _ (w : unit), (Response None None, w))
              Gallery.serve tt (Sample.world0 [])))) eq_refl)))).
Defined.

End Session.

(** ** The decisions of the policies, case by case *)

Section Decisions.
Import Sql Policies Backend.

(** X14.  The two tables, command by command: a caller reads, inserts,
    or updates a profile row exactly when it is the row's user (for an update
    both of the old and of the new row), and deletes none; it reads, inserts
    or deletes a photo row exactly when it is the row's user, and updates
    none.  A request without a user is admitted nowhere. *)
Theorem table_policies_decide (caller : option uuid) :
  (∀ r : Profiles.row,
     (can_select Policies.profiles caller r = true ↔ caller = Some (Profiles.user_id r)) ∧
     (can_insert Policies.profiles caller r = true ↔ caller = Some (Profiles.user_id r)) ∧
     (∀ new, can_update Policies.profiles caller r new = true ↔
             caller = Some (Profiles.user_id r) ∧ caller = Some (Profiles.user_id new)) ∧
     can_delete Policies.profiles caller r = false) ∧
  (∀ r : Photos.row,
     (can_select Policies.photos caller r = true ↔ caller = Some (Photos.user_id r)) ∧
     (can_insert Policies.photos caller r = true ↔ caller = Some (Photos.user_id r)) ∧
     (can_delete Policies.photos caller r = true ↔ caller = Some (Photos.user_id r)) ∧
     (∀ new, can_update Policies.photos caller r new = false)).
Proof.
  split.
  - intros r. rewrite profiles_can_select, profiles_can_insert, profiles_can_delete.
    rewrite !bool_decide_eq_true. split; [done|]. split; [done|]. split; [|done].
    intros new. unfold can_update.
    rewrite profiles_admits_update, profiles_admits_check_update.
    by rewrite andb_true_iff, !bool_decide_eq_true.
  - intros r. rewrite photos_can_select, photos_can_insert, photos_can_delete.
    rewrite !bool_decide_eq_true. split; [done|]. split; [done|]. split; [done|].
    intros new. unfold can_update. by rewrite photos_admits_update.
Qed.

Lemma split_without_separator (c : ascii) (s : string) :
  Text.occurs c s = false → Text.split c s = [s].
Proof.
  induction s as [|a s IH]; cbn [Text.split Text.occurs]; [done|].
  intros H. apply orb_false_elim in H as [Ha Hs]. by rewrite Ha, (IH Hs).
Qed.

Lemma foldername_flat (key : string) :
  Text.occurs "/" key = false → foldername key = [].
Proof.
  intros H. unfold foldername, string_to_array. destruct key as [|a s]; [done|].
  by rewrite (split_without_separator _ _ H).
Qed.

(** X15.  The photos bucket, key by key: a caller uploads or removes an
    object exactly when the key has a folder and its first folder is the text
    of the caller's identifier.  A key without a slash has no folder, so
    nobody may upload or remove it, not even under a key that is the caller's
    own identifier. *)
Theorem bucket_policies_decide (caller : option uuid) (key : string) :
  (can_insert storage_objects caller (Objects.Row "photos" key) = true ↔
     ∃ u, caller = Some u ∧ array_first (foldername key) = Some (Uuid.to_text u)) ∧
  (can_delete storage_objects caller (Objects.Row "photos" key) = true ↔
     ∃ u, caller = Some u ∧ array_first (foldername key) = Some (Uuid.to_text u)) ∧
  (Text.occurs "/" key = false →
     can_insert storage_objects caller (Objects.Row "photos" key) = false ∧
     can_delete storage_objects caller (Objects.Row "photos" key) = false) ∧
  (∀ u, can_insert storage_objects (Some u) (Objects.Row "photos" (Uuid.to_text u))
        = false).
Proof.
  rewrite storage_can_insert, storage_can_delete.
  assert (Hflat : ∀ c k, Text.occurs "/" k = false →
            is_true (own_folder c (Objects.Row "photos" k)) = false).
  { intros c k Hk. apply not_true_is_false. intros Hown.
    apply own_folder_spec in Hown as (u & _ & Hfirst).
    by rewrite (foldername_flat _ Hk) in Hfirst. }
  split; [apply own_folder_spec|]. split; [apply own_folder_spec|]. split.
  - intros Hk. by rewrite (Hflat caller key Hk).
  - intros u. rewrite storage_can_insert. apply Hflat.
    apply occurs_false, to_text_no_slash.
Qed.

Lemma bucket_policies_decide_witness :
  can_delete storage_objects (Some Sample.alice) (Objects.Row "photos" "beach.png")
  = false.
Proof.
  exact (proj2 (proj1 (proj2 (proj2 (bucket_policies_decide (Some Sample.alice)
                                       "beach.png"))) eq_refl)).
Defined.

Lemma fmap_update_same {B} (f : Profiles.row → B) (g : Profiles.row → Profiles.row)
    (tbl : list Profiles.row) :
  (∀ r, f (g r) = f r) → f <$> map g tbl = f <$> tbl.
Proof.
  intros H. induction tbl as [|r tbl IH]; [done|]. cbn. by rewrite H, IH.
Qed.

(** X16.  The owner's update goes through.  On a database that keeps the
    constraints, user [u] setting the email of the profiles it selects
    succeeds: the rows of [u] that match the condition carry the new email,
    with their identifier, user and creation time as before, and every other
    row is as it was. *)
Theorem owner_updates_own_email (u : uuid) (cond : Profiles.row → bool)
    (new_email : option string) (d : database) :
  Schema.consistent d →
  let upd := λ r, Profiles.Row (Profiles.id r) (Profiles.user_id r) new_email
                    (Profiles.created_at r) in
  update_profiles (Some u) cond upd d
  = Ok (set_profiles
          (map (λ r, if cond r && bool_decide (Profiles.user_id r = u)
                     then upd r else r) (profiles d)) d).
Proof.
  intros (Hu & Hpi & Hpu & Hpf & Hi & Hf) upd. unfold update_profiles, rls_update.
  assert (Hreach : ∀ r, reached Policies.profiles UPDATE (Some u) cond r
                        = cond r && bool_decide (Profiles.user_id r = u)).
  { intros r. unfold reached.
    rewrite profiles_can_select, profiles_admits_update.
    destruct (cond r); cbn [andb]; [|done].
    destruct (decide (Profiles.user_id r = u)) as [->|Hne].
    - by rewrite !bool_decide_eq_true_2.
    - rewrite !bool_decide_eq_false_2; [done..|congruence]. }
  rewrite (proj2 (forallb_forall _ _)).
  2:{ intros r _. rewrite Hreach, profiles_admits_check_update.
      destruct (cond r); cbn [andb implb]; [|done].
      case_bool_decide as Hr; cbn [implb]; [|done].
      apply bool_decide_eq_true_2. by rewrite <- Hr. }
  assert (Hmap : map (λ r, if reached Policies.profiles UPDATE (Some u) cond r
                           then upd r else r) (profiles d)
                 = map (λ r, if cond r && bool_decide (Profiles.user_id r = u)
                             then upd r else r) (profiles d)).
  { apply map_ext. intros r. by rewrite Hreach. }
  rewrite Hmap.
  set (g := λ r, if cond r && bool_decide (Profiles.user_id r = u) then upd r else r).
  assert (Hid : ∀ r, Profiles.id (g r) = Profiles.id r)
    by (intros r; unfold g; by destruct (_ && _)).
  assert (Huid : ∀ r, Profiles.user_id (g r) = Profiles.user_id r)
    by (intros r; unfold g; by destruct (_ && _)).
  unfold profiles_constraints.
  rewrite (fmap_update_same Profiles.id g _ Hid).
  rewrite (fmap_update_same Profiles.user_id g _ Huid).
  rewrite !bool_decide_eq_true_2 by done. cbn [andb].
  rewrite (proj2 (forallb_forall _ _)); [done|].
  intros r Hr. apply in_map_iff in Hr as (r0 & <- & Hr0).
  apply bool_decide_eq_true_2. rewrite Huid. by apply Hpf, list_elem_of_In.
Qed.

Lemma owner_updates_own_email_witness :
  ∃ d', update_profiles (Some Sample.alice) (λ _, true)
          (λ r, Profiles.Row (Profiles.id r) (Profiles.user_id r)
                  (Some "alice@example.net") (Profiles.created_at r)) Sample.db0
        = Ok d' ∧
        Profiles.Row 0x100%N Sample.alice (Some "alice@example.net") 1690000000
          ∈ profiles d' ∧
        Sample.bob_profile ∈ profiles d'.
Proof.
  eexists. split.
  - apply (owner_updates_own_email Sample.alice (λ _, true)
             (Some "alice@example.net") Sample.db0 sample_consistent).
  - cbn. rewrite !elem_of_cons. auto.
Defined.

End Decisions.
